(** * MatX operator nodes: slice views and transform operators

    A shallow embedding of the operator layer of MatX
    (include/matx/operators/{slice,matmul,cov,cumsum,trace,qr}.h) and the
    properties of its shape inference, index arithmetic and
    prepare/execute protocol.

    Conventions of the embedding.
    - [index_t] is the 64-bit signed index type; arithmetic on it is
      written with its wrap-around ([idx_add], [idx_sub], [idx_mul]).
    - A [std::array] is a list of cells of fixed length; a cell that was
      never written is [None].  [operator[]] outside the array, or the
      read of a cell never written, is undefined behaviour and ends the
      evaluation with [Undefined].
    - Code that the compiler rejects ([static_assert], a deleted member)
      evaluates to [IllFormed]; a failed [MATX_ASSERT_STR] to [Throw].
    - The one floating-point step, the rounded-up quotient of the slice
      constructor, is exact on integers up to 2^53; beyond them the
      embedding says [Unmodelled]. *)

From Stdlib Require Import ZArith Lia List QArith.
From stdpp Require Import base option list strings.

Local Open Scope string_scope.
Local Open Scope list_scope.
Local Open Scope Z_scope.

(** ** Outcomes of an evaluation *)

Inductive matxError : Set :=
| matxInvalidDim
| matxNotSupported.

(** The ways an evaluation leaves the defined behaviour of C++. *)
Inductive ub : Set :=
| ArrayIndex (arr : string) (i : Z) (len : nat)  (* arr[i] with i outside [0, len) *)
| Indeterminate (arr : string) (i : Z)           (* read of arr[i], never written *)
| FloatToInt                                     (* conversion of inf or NaN to index_t *)
| NullData.                                      (* element of a tensor without storage *)

Inductive outcome (A : Type) : Type :=
| Ok (a : A)
| Throw (e : matxError) (msg : string)
| Undefined (u : ub)
| IllFormed (msg : string)
| Unmodelled (why : string).

Arguments Ok {A} a.
Arguments Throw {A} e msg.
Arguments Undefined {A} u.
Arguments IllFormed {A} msg.
Arguments Unmodelled {A} why.

Definition obind {A B : Type} (m : outcome A) (k : A -> outcome B) : outcome B :=
  match m with
  | Ok a => k a
  | Throw e msg => Throw e msg
  | Undefined u => Undefined u
  | IllFormed msg => IllFormed msg
  | Unmodelled why => Unmodelled why
  end.

Declare Scope outcome_scope.
Delimit Scope outcome_scope with outcome.
Notation "x <- m ;; k" := (obind m (fun x => k))
  (at level 100, m at next level, right associativity) : outcome_scope.
Notation "m ;;; k" := (obind m (fun _ => k))
  (at level 100, right associativity) : outcome_scope.
Local Open Scope outcome_scope.

Definition is_Ok {A : Type} (m : outcome A) : bool :=
  match m with Ok _ => true | _ => false end.

(** Modelled from the spec: the macro [MATX_ASSERT_STR] is declared outside
    these files; a failed assertion makes the operation fail at once with
    the error code and the diagnostic. *)
Definition MATX_ASSERT_STR (cond : bool) (e : matxError) (msg : string) : outcome unit :=
  if cond then Ok tt else Throw e msg.

(** [static_assert(cond, msg)]. *)
Definition static_assert (cond : bool) (msg : string) : outcome unit :=
  if cond then Ok tt else IllFormed msg.

(** [for (int i = 0; i < n; i++) body]: the body runs at 0, 1, ..., n-1 and
    the first failure ends the loop. *)
Fixpoint for_loop {S : Type} (n : nat) (body : Z -> S -> outcome S) (s : S) : outcome S :=
  match n with
  | O => Ok s
  | Datatypes.S k => s' <- for_loop k body s ;; body (Z.of_nat k) s'
  end.

(** ** The index type *)

Abbreviation index_t := Z (only parsing).

Definition idx_wrap (z : Z) : index_t := (z + 2 ^ 63) mod 2 ^ 64 - 2 ^ 63.
Definition idx_add (a b : index_t) : index_t := idx_wrap (a + b).
Definition idx_sub (a b : index_t) : index_t := idx_wrap (a - b).
Definition idx_mul (a b : index_t) : index_t := idx_wrap (a * b).

Definition in_index_t (z : Z) : Prop := - 2 ^ 63 <= z < 2 ^ 63.

(** The integers a [double] holds exactly. *)
Definition double_exact (z : Z) : bool := Z.abs z <=? 2 ^ 53.

(** The ceiling of the rational a/b (b nonzero). *)
Definition ceil_quot (a b : Z) : Z := - ((- a) / b).

(** [(index_t)std::ceil(static_cast<double>(a) / static_cast<double>(b))].
    A zero divisor gives an infinity or a NaN, whose conversion to an
    integer is undefined.  When both operands are at most 2^53 in absolute
    value the conversions are exact and the correctly rounded quotient has
    the ceiling of the exact one; the embedding leaves the other inputs
    open. *)
Definition ceil_double (a b : index_t) : outcome index_t :=
  if b =? 0 then Undefined FloatToInt
  else if double_exact a && double_exact b then Ok (ceil_quot a b)
  else Unmodelled "double rounding beyond 2^53".

(** ** Fixed-length arrays *)

Abbreviation array := (list (option Z)) (only parsing).

Definition array_new (n : nat) : array := replicate n None.
Definition array_of (l : list Z) : array := map Some l.

Definition arr_get (nm : string) (a : array) (i : Z) : outcome Z :=
  if i <? 0 then Undefined (ArrayIndex nm i (length a))
  else match a !! Z.to_nat i with
       | Some (Some v) => Ok v
       | Some None => Undefined (Indeterminate nm i)
       | None => Undefined (ArrayIndex nm i (length a))
       end.

Definition arr_set (nm : string) (a : array) (i : Z) (v : Z) : outcome array :=
  if (0 <=? i) && (i <? Z.of_nat (length a))
  then Ok (<[Z.to_nat i := Some v]> a)
  else Undefined (ArrayIndex nm i (length a)).

(** The array read as a whole (by [mapply], [make_tensor]). *)
Fixpoint arr_values (nm : string) (i : Z) (a : array) : outcome (list Z) :=
  match a with
  | [] => Ok []
  | Some v :: a' => vs <- arr_values nm (i + 1) a' ;; Ok (v :: vs)
  | None :: _ => Undefined (Indeterminate nm i)
  end.

(** ** The operator contract (Rank, Size, element access) *)

Section Operators.

(** [V]: the element type; [L]: the references to elements that a
    non-const access returns. *)
Context {V L : Type}.

Record Operand : Type := mkOperand {
  op_Rank : nat;
  op_Size : Z -> outcome index_t;
  op_get : list Z -> outcome V;
  op_ref : list Z -> outcome L
}.

End Operators.
Arguments Operand : clear implicits.

(** ** slice.h *)

(** The reserved end markers.  Their values are declared outside these
    files; the spec only says that they are reserved values, distinct from
    each other. *)
Class Sentinels : Set := mkSentinels {
  matxEnd : index_t;
  matxDropDim : index_t;
  matxEnd_not_matxDropDim : matxEnd <> matxDropDim
}.

Section Slice.

Context {V L : Type} {sentinels : Sentinels}.

(** [detail::SliceOp<DIM, T>]. *)
Record SliceOp : Type := mkSliceOp {
  DIM : nat;
  op_ : Operand V L;
  sizes_ : array;      (* std::array<shape_type, DIM> *)
  dims_ : array;       (* std::array<int32_t, DIM> *)
  starts_ : array;     (* std::array<shape_type, T::Rank()> *)
  strides_ : array     (* std::array<shape_type, T::Rank()> *)
}.

(** The locals and members the constructor's loop updates. *)
Record ctor_state : Set := mkCtorState {
  cs_d : Z;
  cs_sizes : array;
  cs_dims : array;
  cs_starts : array;
  cs_strides : array
}.

(** One iteration of the loop of [SliceOp::SliceOp] (slice.h:72-93). *)
Definition SliceOp_ctor_body (op : Operand V L) (starts ends strides : array)
    (i : Z) (s : ctor_state) : outcome ctor_state :=
  start <- arr_get "starts" starts i ;;
  end_ <- arr_get "ends" ends i ;;
  starts1 <- arr_set "starts_" (cs_starts s) i start ;;
  stride <- arr_get "strides" strides i ;;
  strides1 <- arr_set "strides_" (cs_strides s) i stride ;;
  if end_ =? matxDropDim
  then Ok (mkCtorState (cs_d s) (cs_sizes s) (cs_dims s) starts1 strides1)
  else
    let d := cs_d s in
    dims1 <- arr_set "dims_" (cs_dims s) d i ;;
    sz <- (if end_ =? matxEnd
           then n <- op_Size op i ;; Ok (idx_sub n start)
           else Ok (idx_sub end_ start)) ;;
    sizes1 <- arr_set "sizes_" (cs_sizes s) d sz ;;
    num <- arr_get "sizes_" sizes1 d ;;
    den <- arr_get "strides_" strides1 d ;;
    q <- ceil_double num den ;;
    sizes2 <- arr_set "sizes_" sizes1 d q ;;
    Ok (mkCtorState (d + 1) sizes2 dims1 starts1 strides1).

(** [SliceOp::SliceOp(op, starts, ends, strides)] at output rank [dim]
    (slice.h:63-95).  The three argument arrays have the operand's rank
    by their type. *)
Definition SliceOp_ctor (dim : nat) (op : Operand V L)
    (starts ends strides : list Z) : outcome SliceOp :=
  let rank := op_Rank op in
  static_assert (0 <? rank)%nat
    "SliceOp: Rank of operator must be greater than 0." ;;;
  static_assert (dim <=? rank)%nat
    "SliceOp: DIM must be less than or equal to operator rank." ;;;
  static_assert ((length starts =? rank)%nat && (length ends =? rank)%nat
                 && (length strides =? rank)%nat)
    "std::array<shape_type, T::Rank()>" ;;;
  s <- for_loop rank
         (SliceOp_ctor_body op (array_of starts) (array_of ends) (array_of strides))
         (mkCtorState 0 (array_new dim) (array_new dim)
                      (array_new rank) (array_new rank)) ;;
  MATX_ASSERT_STR (cs_d s =? Z.of_nat dim) matxInvalidDim
    "SliceOp: Number of dimensions without matxDropDim must equal new rank." ;;;
  Ok (mkSliceOp dim op (cs_sizes s) (cs_dims s) (cs_starts s) (cs_strides s)).

(** [SliceOp::Rank()]. *)
Definition SliceOp_Rank (s : SliceOp) : nat := DIM s.

(** [SliceOp::Size(dim)]. *)
Definition SliceOp_Size (s : SliceOp) (dim : Z) : outcome index_t :=
  arr_get "sizes_" (sizes_ s) dim.

(** The index vector that both overloads of [SliceOp::operator()] hand
    to the operand (slice.h:100-115 and 124-139). *)
Definition SliceOp_index (s : SliceOp) (indices : list Z) : outcome (list Z) :=
  let rank := op_Rank (op_ s) in
  static_assert (length indices =? DIM s)%nat "sizeof...(Is)==Rank()" ;;;
  let inds := array_of indices in
  let ind0 := array_of (take rank (indices ++ replicate rank 0)) in
  ind1 <- for_loop rank
            (fun i ind => v <- arr_get "starts_" (starts_ s) i ;;
                          arr_set "ind" ind i v) ind0 ;;
  ind2 <- for_loop (DIM s)
            (fun i ind => p <- arr_get "dims_" (dims_ s) i ;;
                          cur <- arr_get "ind" ind p ;;
                          x <- arr_get "inds" inds i ;;
                          st <- arr_get "strides_" (strides_ s) i ;;
                          arr_set "ind" ind p (idx_add cur (idx_mul x st))) ind1 ;;
  arr_values "ind" 0 ind2.

(** [operator()(indices...) const]: the element, read through [mapply]. *)
Definition SliceOp_get (s : SliceOp) (indices : list Z) : outcome V :=
  ind <- SliceOp_index s indices ;; op_get (op_ s) ind.

(** [operator()(indices...)]: the reference to the element. *)
Definition SliceOp_ref (s : SliceOp) (indices : list Z) : outcome L :=
  ind <- SliceOp_index s indices ;; op_ref (op_ s) ind.

(** A slice node is an operator again. *)
Definition SliceOp_operand (s : SliceOp) : Operand V L :=
  {| op_Rank := SliceOp_Rank s; op_Size := SliceOp_Size s;
     op_get := SliceOp_get s; op_ref := SliceOp_ref s |}.

(** [slice<N>(op, starts, ends, strides)] for an operand that is not a
    tensor view (slice.h:247-258); a tensor view slices itself by a
    member that is outside these files. *)
Definition slice_N (n : nat) (op : Operand V L) (starts ends strides : list Z)
  : outcome SliceOp :=
  SliceOp_ctor n op starts ends strides.

(** [slice(op, starts, ends, strides)]: the rank is kept (slice.h:172-183). *)
Definition slice (op : Operand V L) (starts ends strides : list Z) : outcome SliceOp :=
  SliceOp_ctor (op_Rank op) op starts ends strides.

(** [slice(op, starts, ends)]: unit strides (slice.h:210-219). *)
Definition slice_unit (op : Operand V L) (starts ends : list Z) : outcome SliceOp :=
  slice op starts ends (replicate (op_Rank op) 1).

(** [slice<N>(opIn, starts, ends)]: unit strides at a declared rank
    (slice.h:288-296). *)
Definition slice_N_unit (n : nat) (op : Operand V L) (starts ends : list Z)
  : outcome SliceOp :=
  slice_N n op starts ends (replicate (op_Rank op) 1).

(** What a constructed node holds besides its operand. *)
Definition SliceOp_members (s : SliceOp) : nat * list (option Z) * list (option Z)
                                           * list (option Z) * list (option Z) :=
  (DIM s, sizes_ s, dims_ s, starts_ s, strides_ s).

End Slice.
Arguments SliceOp : clear implicits.

(** ** Tensors, executors and the transform nodes *)

Inductive matxMemorySpace : Set :=
| MATX_ASYNC_DEVICE_MEMORY
| MATX_HOST_MEMORY.

(** The execution context: the device kind carries its stream. *)
Inductive Executor : Set :=
| DeviceExecutor (stream : Z)
| HostExecutor.

Definition is_device_executor_v (ex : Executor) : bool :=
  match ex with DeviceExecutor _ => true | HostExecutor => false end.

Definition getStream (ex : Executor) : outcome Z :=
  match ex with
  | DeviceExecutor st => Ok st
  | HostExecutor => IllFormed "getStream"
  end.

(** What a tensor's data pointer refers to. *)
Inductive storage : Set :=
| NoStorage                                               (* default-constructed *)
| UserStorage (p : nat)                                   (* a buffer of the caller *)
| Allocated (space : matxMemorySpace) (stream : option Z). (* made by make_tensor *)

(** [tensor_t<T, RANK>]: a shape and a handle on shared storage. *)
Record tensor_t : Set := mkTensor {
  t_shape : list Z;
  t_data : storage
}.

Definition tensor_default (rank : nat) : tensor_t :=
  mkTensor (replicate rank 0) NoStorage.

(** The expression tree.  Each constructor lists the data members of the
    class of the same name; [perm_] is [None] for [no_permute_t]. *)
Inductive Op : Type :=
| Tensor (t : tensor_t)
| PermuteOp (dims_ : list Z) (op_ : Op)
| CovOp (a_ : Op) (out_dims_ : array) (tmp_out_ : tensor_t)
| CumSumOp (a_ : Op) (out_dims_ : array) (tmp_out_ : tensor_t)
| TraceOp (a_ : Op) (tmp_out_ : tensor_t)
| MatMulOp (a_ b_ : Op) (alpha_ beta_ : Q) (perm_ : option (list Z))
           (out_dims_ : array) (tmp_out_ : tensor_t)
| QROp (a_ : Op)
| CuSolverQROp (a_ : Op) (tmp_out_ : tensor_t).

(** What an evaluation does to the outside. *)
Inductive event : Type :=
| Alloc (shape : list Z) (space : matxMemorySpace) (stream : option Z)
| Kernel (name : string) (dests : list Op) (srcs : list Op)
| Printf (fmt : string) (args : list Z).

(** [Rank()]. *)
Fixpoint Rank (n : Op) : nat :=
  match n with
  | Tensor t => length (t_shape t)
  | PermuteOp _ op => Rank op
  | CovOp a _ _ => Rank a
  | CumSumOp a _ _ => Rank a
  | TraceOp _ _ => 0
  | MatMulOp a _ _ _ _ _ _ => Rank a
  | QROp a => Rank a
  | CuSolverQROp a _ => Rank a
  end.

(** [Size(dim)].  For [PermuteOp]: Modelled from the spec: permute.h is
    outside these files; a logical permutation shows at dimension [dim]
    the operand's dimension [dims_[dim]]. *)
Fixpoint Size (n : Op) (dim : Z) : outcome index_t :=
  match n with
  | Tensor t => arr_get "shape" (array_of (t_shape t)) dim
  | PermuteOp dims op => d <- arr_get "dims_" (array_of dims) dim ;; Size op d
  | CovOp _ out_dims _ => arr_get "out_dims_" out_dims dim
  | CumSumOp _ out_dims _ => arr_get "out_dims_" out_dims dim
  | TraceOp _ _ => Ok 1
  | MatMulOp _ _ _ _ _ out_dims _ => arr_get "out_dims_" out_dims dim
  | QROp a => Size a dim
  | CuSolverQROp a _ => Size a dim
  end.

(** The extents at dimensions 0 .. Rank()-1. *)
Fixpoint sizes_upto (n : Op) (k : nat) : outcome (list Z) :=
  match k with
  | O => Ok []
  | S k' => l <- sizes_upto n k' ;; v <- Size n (Z.of_nat k') ;; Ok (l ++ [v])
  end.

Definition extents (n : Op) : outcome (list Z) := sizes_upto n (Rank n).

(** The loop [for (int r = 0; r < n; r++) out_dims_[r] = f(r);]. *)
Definition fill_out_dims (n : nat) (f : Z -> outcome Z) (out_dims : array) : outcome array :=
  for_loop n (fun r od => v <- f r ;; arr_set "out_dims_" od r v) out_dims.

(** [CovOp::CovOp(A)] (cov.h:61-67); [out_dims_] is a
    [std::array<index_t, 2>]. *)
Definition CovOp_ctor (A : Op) : outcome Op :=
  od <- fill_out_dims (Rank A) (Size A) (array_new 2) ;;
  Ok (CovOp A od (tensor_default (Rank A))).

(** [cov(a)] (cov.h:122-128). *)
Definition cov (a : Op) : outcome Op := CovOp_ctor a.

(** [CumSumOp::CumSumOp(a)] (cumsum.h:60-64); [out_dims_] is a
    [std::array<index_t, OpA::Rank()>]. *)
Definition CumSumOp_ctor (a : Op) : outcome Op :=
  od <- fill_out_dims (Rank a) (Size a) (array_new (Rank a)) ;;
  Ok (CumSumOp a od (tensor_default (Rank a))).

(** [cumsum(a)] (cumsum.h:115-118). *)
Definition cumsum (a : Op) : outcome Op := CumSumOp_ctor a.

(** [TraceOp::TraceOp(a)] and [trace(a)] (trace.h:59, 113-116). *)
Definition TraceOp_ctor (a : Op) : Op := TraceOp a (tensor_default 0).
Definition trace (a : Op) : Op := TraceOp_ctor a.

(** [QROp::QROp(a)], [qr(A)], [CuSolverQROp::CuSolverQROp(a)] and
    [cusolver_qr(a)] (qr.h:56, 102-105, 123, 158-161). *)
Definition QROp_ctor (a : Op) : Op := QROp a.
Definition qr (A : Op) : Op := QROp_ctor A.
Definition CuSolverQROp_ctor (a : Op) : Op := CuSolverQROp a (tensor_default (Rank a)).
Definition cusolver_qr (a : Op) : Op := CuSolverQROp_ctor a.

Definition printf_fmt : string := "%lld %lld %lld\n".

(** The body of the loop of the permuting branch (matmul.h:68-78). *)
Definition MatMulOp_perm_dim (a b : Op) (perm : array) (r : Z) : outcome Z :=
  let rank := Z.of_nat (Rank a) in
  p <- arr_get "perm_" perm r ;;
  if p =? rank - 2 then Size a p
  else if p =? rank - 1 then Size b p
  else Size a r.

(** [MatMulOp::MatMulOp(a, b, alpha, beta, perm)] (matmul.h:65-89), with
    what it writes to the standard output. *)
Definition MatMulOp_ctor (a b : Op) (alpha beta : Q) (perm : option (list Z))
  : outcome (Op * list event) :=
  let rank := Rank a in
  let tmp := tensor_default rank in
  match perm with
  | Some pm =>
      od <- fill_out_dims rank (MatMulOp_perm_dim a b (array_of pm)) (array_new rank) ;;
      x0 <- arr_get "out_dims_" od 0 ;;
      x1 <- arr_get "out_dims_" od 1 ;;
      x2 <- arr_get "out_dims_" od 2 ;;
      Ok (MatMulOp a b alpha beta perm od tmp, [Printf printf_fmt [x0; x1; x2]])
  | None =>
      od1 <- fill_out_dims (Z.to_nat (Z.of_nat rank - 2)) (Size a) (array_new rank) ;;
      m <- Size a (Z.of_nat (Rank a) - 2) ;;
      od2 <- arr_set "out_dims_" od1 (Z.of_nat (Rank a) - 2) m ;;
      n <- Size b (Z.of_nat (Rank b) - 1) ;;
      od3 <- arr_set "out_dims_" od2 (Z.of_nat (Rank b) - 1) n ;;
      Ok (MatMulOp a b alpha beta None od3 tmp, [])
  end.

(** [matmul(A, B, alpha, beta)] (matmul.h:162-165). *)
Definition matmul (A B : Op) (alpha beta : Q) : outcome (Op * list event) :=
  MatMulOp_ctor A B alpha beta None.

(** Modelled from the spec: [detail::getPermuteDims<RANK>(axis)] is
    outside these files.  The permutation moves the chosen axis pair to the
    trailing position and keeps the other dimensions, in their order, in
    front; an axis outside the rank or chosen twice is refused. *)
Definition getPermuteDims (rank : nat) (axis : Z * Z) : outcome (list Z) :=
  let '(a0, a1) := axis in
  let ok z := (0 <=? z) && (z <? Z.of_nat rank) in
  MATX_ASSERT_STR (ok a0 && ok a1) matxInvalidDim "Reduction dim out of range" ;;;
  MATX_ASSERT_STR (negb (a0 =? a1)) matxInvalidDim "Reduction Dim repeated" ;;;
  Ok (filter (fun z => z <> a0 /\ z <> a1) (map Z.of_nat (seq 0 rank)) ++ [a0; a1]).

(** Modelled from the spec: [permute(op, dims)] is outside these files; it
    builds the logical permutation of [op]. *)
Definition permute (op : Op) (dims : list Z) : Op := PermuteOp dims op.

(** [matmul(A, B, axis, alpha, beta)] (matmul.h:192-202). *)
Definition matmul_axis (A B : Op) (axis : Z * Z) (alpha beta : Q)
  : outcome (Op * list event) :=
  static_assert (Rank A =? Rank B)%nat
    "matmul: inputs must have same rank to use matmul with axis parameter" ;;;
  perm <- getPermuteDims (Rank A) axis ;;
  let in1 := permute A perm in
  let in2 := permute B perm in
  MatMulOp_ctor in1 in2 alpha beta (Some perm).

(** ** Element access *)

(** An element of a buffer: the storage and the index into it. *)
Definition elem_ref : Set := (storage * list Z)%type.

(** Modelled from the spec: [tensor_t::operator()] is outside these files;
    it takes exactly [Rank()] indices and yields the element at that
    multi-index of the tensor's storage. *)
Definition tensor_at (t : tensor_t) (indices : list Z) : outcome elem_ref :=
  static_assert (length indices =? length (t_shape t))%nat "sizeof...(Is) == RANK" ;;;
  match t_data t with
  | NoStorage => Undefined NullData
  | d => Ok (d, indices)
  end.

(** [operator()(indices...)].  The transform nodes read their temporary
    (cov.h:69-73, cumsum.h:66-69, trace.h:62-65, matmul.h:91-95); the QR
    nodes declare the member deleted (qr.h:58-60, 125-127).  For
    [PermuteOp]: Modelled from the spec: the index at output dimension [i]
    goes to the operand's dimension [dims_[i]]. *)
Fixpoint Op_at (n : Op) (indices : list Z) : outcome elem_ref :=
  match n with
  | Tensor t => tensor_at t indices
  | PermuteOp dims op =>
      static_assert (length indices =? Rank op)%nat "sizeof...(Is)==Rank()" ;;;
      ind <- for_loop (Rank op)
               (fun i ind => p <- arr_get "dims_" (array_of dims) i ;;
                             x <- arr_get "inds" (array_of indices) i ;;
                             arr_set "ind" ind p x) (array_of indices) ;;
      l <- arr_values "ind" 0 ind ;;
      Op_at op l
  | CovOp _ _ tmp => tensor_at tmp indices
  | CumSumOp _ _ tmp => tensor_at tmp indices
  | TraceOp _ tmp => tensor_at tmp indices
  | MatMulOp _ _ _ _ _ _ tmp => tensor_at tmp indices
  | QROp _ => IllFormed "operator() const = delete"
  | CuSolverQROp _ _ => IllFormed "operator() const = delete"
  end.

(** The caller's buffers and what is in them. *)
Definition store : Type := nat -> list Z -> Z.

Definition poke (st : store) (p : nat) (ix : list Z) (v : Z) : store :=
  fun q jx => if decide (q = p /\ jx = ix) then v else st q jx.

Definition load (st : store) (r : elem_ref) : outcome Z :=
  match fst r with
  | UserStorage p => Ok (st p (snd r))
  | NoStorage => Undefined NullData
  | Allocated _ _ => Unmodelled "written by the numeric kernel"
  end.

(** ** Exec and PreRun *)

(** [std::get<i>(out)]. *)
Definition tuple_get (out : list tensor_t) (i : nat) : outcome tensor_t :=
  match out !! i with
  | Some t => Ok t
  | None => IllFormed "std::get: tuple index out of bounds"
  end.

(** [Exec(out, ex)]: one call into the numeric kernel (cov.h:84-88,
    cumsum.h:71-74, trace.h:67-70, matmul.h:107-116, qr.h:62-68, 129-135). *)
Definition Exec (n : Op) (out : list tensor_t) (ex : Executor) : outcome (list event) :=
  match n with
  | CovOp a _ _ =>
      static_assert (is_device_executor_v ex)
        "cov() only supports the CUDA executor currently" ;;;
      o0 <- tuple_get out 0 ;;
      Ok [Kernel "cov_impl" [Tensor o0] [a]]
  | CumSumOp a _ _ =>
      o0 <- tuple_get out 0 ;;
      Ok [Kernel "cumsum_impl" [Tensor o0] [a]]
  | TraceOp a _ =>
      o0 <- tuple_get out 0 ;;
      Ok [Kernel "trace_impl" [Tensor o0] [a]]
  | MatMulOp a b _ _ perm _ _ =>
      static_assert (is_device_executor_v ex)
        "matmul() only supports the CUDA executor currently" ;;;
      o0 <- tuple_get out 0 ;;
      match perm with
      | Some pm => Ok [Kernel "matmul_impl" [permute (Tensor o0) pm] [a; b]]
      | None => Ok [Kernel "matmul_impl" [Tensor o0] [a; b]]
      end
  | QROp a =>
      static_assert (is_device_executor_v ex)
        "svd() only supports the CUDA executor currently" ;;;
      static_assert (length out =? 3)%nat
        "Must use mtie with 3 outputs on qr(). ie: (mtie(Q, R) = qr(A))" ;;;
      o0 <- tuple_get out 0 ;;
      o1 <- tuple_get out 1 ;;
      Ok [Kernel "qr_impl" [Tensor o0; Tensor o1] [a]]
  | CuSolverQROp a _ =>
      static_assert (is_device_executor_v ex)
        "cusolver_qr() only supports the CUDA executor currently" ;;;
      static_assert (length out =? 3)%nat
        "Must use mtie with 2 outputs on cusolver_qr(). ie: (mtie(A, tau) = eig(A))" ;;;
      o0 <- tuple_get out 0 ;;
      o1 <- tuple_get out 1 ;;
      Ok [Kernel "cusolver_qr_impl" [Tensor o0; Tensor o1] [a]]
  | Tensor _ | PermuteOp _ _ => IllFormed "no member named Exec"
  end.

(** Modelled from the spec: [make_tensor] is outside these files; it is
    the allocation facility, which makes a buffer of the given extents in
    the given memory space. *)
Definition make_tensor (out_dims : array) (space : matxMemorySpace) (stream : option Z)
  : outcome (tensor_t * list event) :=
  sh <- arr_values "out_dims_" 0 out_dims ;;
  Ok (mkTensor sh (Allocated space stream), [Alloc sh space stream]).

(** The allocation step of the nodes that allocate only on the device
    (cov.h:97-99, cumsum.h:88-90, matmul.h:129-131). *)
Definition alloc_if_device (out_dims : array) (tmp : tensor_t) (ex : Executor)
  : outcome (tensor_t * list event) :=
  if is_device_executor_v ex
  then st <- getStream ex ;; make_tensor out_dims MATX_ASYNC_DEVICE_MEMORY (Some st)
  else Ok (tmp, []).

(** [PreRun(shape, ex)] (cov.h:90-102, cumsum.h:81-93, trace.h:77-92,
    matmul.h:118-134, qr.h:75-79, 142-146).  The shape argument is unused
    by every node.  For [Tensor] and [PermuteOp]: Modelled from the spec:
    a leaf is read directly and a view prepares its operand. *)
Fixpoint PreRun (n : Op) (ex : Executor) : outcome (Op * list event) :=
  match n with
  | Tensor t => Ok (Tensor t, [])
  | PermuteOp dims op =>
      r <- PreRun op ex ;;
      Ok (PermuteOp dims (fst r), snd r)
  | CovOp a od tmp =>
      ra <- PreRun a ex ;;
      rt <- alloc_if_device od tmp ex ;;
      let n' := CovOp (fst ra) od (fst rt) in
      ev <- Exec n' [fst rt] ex ;;
      Ok (n', snd ra ++ snd rt ++ ev)
  | CumSumOp a od tmp =>
      ra <- PreRun a ex ;;
      rt <- alloc_if_device od tmp ex ;;
      let n' := CumSumOp (fst ra) od (fst rt) in
      ev <- Exec n' [fst rt] ex ;;
      Ok (n', snd ra ++ snd rt ++ ev)
  | TraceOp a tmp =>
      ra <- PreRun a ex ;;
      rt <- (if is_device_executor_v ex
             then st <- getStream ex ;;
                  make_tensor (array_new 0) MATX_ASYNC_DEVICE_MEMORY (Some st)
             else make_tensor (array_new 0) MATX_HOST_MEMORY None) ;;
      let n' := TraceOp (fst ra) (fst rt) in
      ev <- Exec n' [fst rt] ex ;;
      Ok (n', snd ra ++ snd rt ++ ev)
  | MatMulOp a b alpha beta perm od tmp =>
      ra <- PreRun a ex ;;
      rb <- PreRun b ex ;;
      rt <- alloc_if_device od tmp ex ;;
      let n' := MatMulOp (fst ra) (fst rb) alpha beta perm od (fst rt) in
      ev <- Exec n' [fst rt] ex ;;
      Ok (n', snd ra ++ snd rb ++ snd rt ++ ev)
  | QROp a =>
      MATX_ASSERT_STR false matxNotSupported
        "qr() must only be called with a single assignment" ;;;
      Ok (QROp a, [])
  | CuSolverQROp a tmp =>
      MATX_ASSERT_STR false matxNotSupported
        "cusolver_qr() must only be called with a single assignment since it has multiple return types" ;;;
      Ok (CuSolverQROp a tmp, [])
  end.

(** The node's own temporary. *)
Definition tmp_of (n : Op) : option tensor_t :=
  match n with
  | CovOp _ _ tmp | CumSumOp _ _ tmp | TraceOp _ tmp
  | MatMulOp _ _ _ _ _ _ tmp | CuSolverQROp _ tmp => Some tmp
  | Tensor _ | PermuteOp _ _ | QROp _ => None
  end.

(** The transform nodes of an expression tree, and its trace nodes. *)
Fixpoint transform_nodes (n : Op) : nat :=
  match n with
  | Tensor _ => 0
  | PermuteOp _ op => transform_nodes op
  | CovOp a _ _ | CumSumOp a _ _ | TraceOp a _ | QROp a | CuSolverQROp a _ =>
      S (transform_nodes a)
  | MatMulOp a b _ _ _ _ _ => S (transform_nodes a + transform_nodes b)
  end.

Fixpoint trace_nodes (n : Op) : nat :=
  match n with
  | Tensor _ => 0
  | PermuteOp _ op => trace_nodes op
  | TraceOp a _ => S (trace_nodes a)
  | CovOp a _ _ | CumSumOp a _ _ | QROp a | CuSolverQROp a _ => trace_nodes a
  | MatMulOp a b _ _ _ _ _ => (trace_nodes a + trace_nodes b)%nat
  end.

(** Whether a multi-output node occurs in the tree. *)
Fixpoint has_qr (n : Op) : bool :=
  match n with
  | Tensor _ => false
  | PermuteOp _ op => has_qr op
  | CovOp a _ _ | CumSumOp a _ _ | TraceOp a _ => has_qr a
  | MatMulOp a b _ _ _ _ _ => has_qr a || has_qr b
  | QROp _ | CuSolverQROp _ _ => true
  end.

Definition is_Kernel (e : event) : bool :=
  match e with Kernel _ _ _ => true | _ => false end.
Definition is_Alloc (e : event) : bool :=
  match e with Alloc _ _ _ => true | _ => false end.
Definition is_Printf (e : event) : bool :=
  match e with Printf _ _ => true | _ => false end.

Fixpoint count_events (p : event -> bool) (ev : list event) : nat :=
  match ev with
  | [] => 0
  | e :: ev' => ((if p e then 1 else 0) + count_events p ev')%nat
  end.

(** The temporary that [make_tensor] makes on the device. *)
Definition device_tmp (sh : list Z) (st : Z) : tensor_t :=
  mkTensor sh (Allocated MATX_ASYNC_DEVICE_MEMORY (Some st)).

(** The temporary that [make_tensor] makes for a trace on the host. *)
Definition host_scalar_tmp : tensor_t :=
  mkTensor [] (Allocated MATX_HOST_MEMORY None).

(** ** The rules of the specification

    These definitions follow the words of the specification; the theorems
    compare them with the code above. *)

(** Multiply without permutation: the batch dimensions and the
    second-to-last dimension from A, the last dimension from B. *)
Definition matmul_shape_rule (A B : list Z) : list Z :=
  take (length A - 1) A ++ drop (length B - 1) B.

(** The logical permutation of a shape: dimension [k] shows the extent of
    dimension [perm[k]]. *)
Definition permute_shape (perm sh : list Z) : list Z :=
  map (fun p => default 0 (sh !! Z.to_nat p)) perm.

(** Permuting back: the extent at position [k] returns to dimension
    [perm[k]]. *)
Definition restore_shape (perm sh : list Z) : list Z :=
  foldr (fun pv acc => <[Z.to_nat (fst pv) := snd pv]> acc)
        (replicate (length sh) 0) (zip perm sh).

(** Multiply along an axis pair: permute the pair to the trailing
    position, apply the rule, permute back. *)
Definition matmul_axis_shape_rule (A B : list Z) (axis : Z * Z) : outcome (list Z) :=
  perm <- getPermuteDims (length A) axis ;;
  Ok (restore_shape perm (matmul_shape_rule (permute_shape perm A) (permute_shape perm B))).

Section SliceRules.

Context {sentinels : Sentinels}.

(** An explicit end stands for itself, "to end of dimension" for the
    operand's extent. *)
Definition resolve_end (size e : Z) : Z := if e =? matxEnd then size else e.

(** The original positions of the retained dimensions, in order. *)
Fixpoint retained_from (i : Z) (ends : list Z) : list Z :=
  match ends with
  | [] => []
  | e :: es => if e =? matxDropDim then retained_from (i + 1) es
               else i :: retained_from (i + 1) es
  end.
Definition retained (ends : list Z) : list Z := retained_from 0 ends.

(** The extent of each retained dimension:
    ceil((resolved_end - start) / stride), each taken at that dimension. *)
Fixpoint slice_spec_sizes (op_sizes starts ends strides : list Z) : list Z :=
  match op_sizes, starts, ends, strides with
  | n :: ns, s :: ss, e :: es, st :: sts =>
      if e =? matxDropDim then slice_spec_sizes ns ss es sts
      else ceil_quot (resolve_end n e - s) st :: slice_spec_sizes ns ss es sts
  | _, _, _, _ => []
  end.

(** The index vector of an access: every coordinate starts at its start
    offset; a retained dimension adds its output index times its stride
    (in the arithmetic of [index_t]). *)
Fixpoint slice_spec_index (starts ends strides indices : list Z) : list Z :=
  match starts, ends, strides with
  | s :: ss, e :: es, st :: sts =>
      if e =? matxDropDim then s :: slice_spec_index ss es sts indices
      else match indices with
           | x :: xs => idx_add s (idx_mul x st) :: slice_spec_index ss es sts xs
           | [] => s :: slice_spec_index ss es sts []
           end
  | _, _, _ => []
  end.

(** What the constructor leaves in [sizes_] (slice.h:83-90): the difference
    is taken in [index_t] and the quotient with the stride found at the
    output position [d]. *)
Fixpoint ctor_sizes_from (d : nat) (all_strides op_sizes starts ends : list Z) : list Z :=
  match op_sizes, starts, ends with
  | n :: ns, s :: ss, e :: es =>
      if e =? matxDropDim then ctor_sizes_from d all_strides ns ss es
      else ceil_quot (idx_sub (resolve_end n e) s) (default 0 (all_strides !! d))
           :: ctor_sizes_from (S d) all_strides ns ss es
  | _, _, _ => []
  end.
Definition ctor_sizes (strides op_sizes starts ends : list Z) : list Z :=
  ctor_sizes_from 0 strides op_sizes starts ends.

(** The index vector that [operator()] builds (slice.h:108-115): the
    retained dimension at output position [d] adds its index times the
    stride found at position [d]. *)
Fixpoint ctor_index_from (d : nat) (all_strides starts ends indices : list Z) : list Z :=
  match starts, ends with
  | s :: ss, e :: es =>
      if e =? matxDropDim then s :: ctor_index_from d all_strides ss es indices
      else match indices with
           | x :: xs => idx_add s (idx_mul x (default 0 (all_strides !! d)))
                        :: ctor_index_from (S d) all_strides ss es xs
           | [] => s :: ctor_index_from (S d) all_strides ss es []
           end
  | _, _ => []
  end.
Definition ctor_index (strides starts ends indices : list Z) : list Z :=
  ctor_index_from 0 strides starts ends indices.

(** The stride table read at an output position is the stride of the
    dimension retained there. *)
Definition strides_aligned (ends strides : list Z) : Prop :=
  forall (k : nat) (p : Z), retained ends !! k = Some p ->
    strides !! k = strides !! Z.to_nat p.

(** The single slice that two nested slices compose to:
    start = s1 + s2*st1, stride = st1*st2, and the end carried along. *)
Definition compose_starts (s1 st1 s2 : list Z) : list Z :=
  zip_with (fun p x => idx_add (fst p) (idx_mul x (snd p))) (zip s1 st1) s2.
Definition compose_strides (st1 st2 : list Z) : list Z :=
  zip_with idx_mul st1 st2.
Definition compose_ends (s1 st1 e1 e2 : list Z) : list Z :=
  zip_with (fun p e =>
              if e =? matxDropDim then matxDropDim
              else if e =? matxEnd then snd p
              else idx_add (fst (fst p)) (idx_mul e (snd (fst p))))
           (zip (zip s1 st1) e1) e2.

End SliceRules.

(** ** Inputs of the examples *)

(** A choice of end markers for the examples. *)
Definition example_sentinels : Sentinels :=
  mkSentinels (2 ^ 63 - 3) (2 ^ 63 - 2) ltac:(discriminate).

(** A leaf of the given shape: its element at an index is the index, so
    that a read shows where it went. *)
Definition index_leaf (shape : list Z) : Operand (list Z) (list Z) :=
  {| op_Rank := length shape;
     op_Size := fun d => arr_get "shape" (array_of shape) d;
     op_get := fun ix => Ok ix;
     op_ref := fun ix => Ok ix |}.

Definition tensor_of (shape : list Z) (p : nat) : Op :=
  Tensor (mkTensor shape (UserStorage p)).

(** The node that [slice<1>] builds on a 3 x 8 leaf for starts {2, 0}, ends
    {matxDropDim, matxEnd} and strides {1, 2}. *)
Definition row_slice : SliceOp (list Z) (list Z) :=
  {| DIM := 1; op_ := index_leaf [3; 8]; sizes_ := [Some 8]; dims_ := [Some 1];
     starts_ := [Some 2; Some 0]; strides_ := [Some 1; Some 2] |}.

(** The nodes of a slice (start 1, stride 2) of a slice (start 2, stride 3)
    of a leaf of 40 elements, and of the one slice (start 5, stride 6). *)
Definition inner_slice : SliceOp (list Z) (list Z) :=
  {| DIM := 1; op_ := index_leaf [40]; sizes_ := [Some 13]; dims_ := [Some 0];
     starts_ := [Some 2]; strides_ := [Some 3] |}.

Definition outer_slice : SliceOp (list Z) (list Z) :=
  {| DIM := 1; op_ := SliceOp_operand inner_slice; sizes_ := [Some 6];
     dims_ := [Some 0]; starts_ := [Some 1]; strides_ := [Some 2] |}.

Definition single_slice : SliceOp (list Z) (list Z) :=
  {| DIM := 1; op_ := index_leaf [40]; sizes_ := [Some 6]; dims_ := [Some 0];
     starts_ := [Some 5]; strides_ := [Some 6] |}.

(** * Properties *)

(** ** Outcomes, arrays and loops *)

Lemma obind_Ok_inv {A B : Type} (m : outcome A) (k : A -> outcome B) (b : B) :
  obind m k = Ok b -> exists a, m = Ok a /\ k a = Ok b.
Proof. destruct m; simpl; intros H; try discriminate. eauto. Qed.

Ltac inv_bind H :=
  let x := fresh "x" in
  let E := fresh "E" in
  apply obind_Ok_inv in H; destruct H as (x & E & H).

Lemma static_assert_Ok_inv (c : bool) (msg : string) (u : unit) :
  static_assert c msg = Ok u -> c = true.
Proof. destruct c; simpl; [reflexivity | discriminate]. Qed.

Lemma arr_get_lookup (nm : string) (a : array) (i : Z) (v : Z) :
  0 <= i -> a !! Z.to_nat i = Some (Some v) -> arr_get nm a i = Ok v.
Proof.
  intros Hi Hl. unfold arr_get.
  destruct (Z.ltb_spec i 0); [lia|]. now rewrite Hl.
Qed.

Lemma arr_get_Ok_inv (nm : string) (a : array) (i : Z) (v : Z) :
  arr_get nm a i = Ok v -> 0 <= i /\ a !! Z.to_nat i = Some (Some v).
Proof.
  unfold arr_get. destruct (Z.ltb_spec i 0) as [Hlt|Hge]; [discriminate|].
  destruct (a !! Z.to_nat i) as [[w|]|]; intros Hv; inversion Hv; subst. now split.
Qed.

Lemma arr_get_beyond (nm : string) (a : array) (i : Z) :
  Z.of_nat (length a) <= i -> arr_get nm a i = Undefined (ArrayIndex nm i (length a)).
Proof.
  intros Hi. unfold arr_get. destruct (Z.ltb_spec i 0); [reflexivity|].
  rewrite (lookup_ge_None_2 a (Z.to_nat i)) by lia. reflexivity.
Qed.

Lemma arr_get_of (nm : string) (l : list Z) (k : nat) (v : Z) :
  l !! k = Some v -> arr_get nm (array_of l) (Z.of_nat k) = Ok v.
Proof.
  intros Hl. apply arr_get_lookup; [lia|].
  rewrite Nat2Z.id. unfold array_of. now rewrite list_lookup_fmap, Hl.
Qed.

Lemma arr_set_in (nm : string) (a : array) (i : Z) (v : Z) :
  0 <= i < Z.of_nat (length a) -> arr_set nm a i v = Ok (<[Z.to_nat i := Some v]> a).
Proof.
  intros [H0 H1]. unfold arr_set.
  destruct (Z.leb_spec 0 i); [|lia]. destruct (Z.ltb_spec i (Z.of_nat (length a))); [|lia].
  reflexivity.
Qed.

Lemma arr_set_beyond (nm : string) (a : array) (i : Z) (v : Z) :
  Z.of_nat (length a) <= i -> arr_set nm a i v = Undefined (ArrayIndex nm i (length a)).
Proof.
  intros Hi. unfold arr_set.
  destruct (Z.ltb_spec i (Z.of_nat (length a))); [lia|].
  now rewrite andb_false_r.
Qed.

Lemma arr_set_Ok_inv (nm : string) (a a' : array) (i : Z) (v : Z) :
  arr_set nm a i v = Ok a' ->
  0 <= i < Z.of_nat (length a) /\ a' = <[Z.to_nat i := Some v]> a.
Proof.
  unfold arr_set.
  destruct (Z.leb_spec 0 i) as [Hlo|Hlo];
    destruct (Z.ltb_spec i (Z.of_nat (length a))) as [Hhi|Hhi];
    simpl; intros Hv; inversion Hv; subst. split; [lia | reflexivity].
Qed.

Lemma arr_set_length (nm : string) (a a' : array) (i : Z) (v : Z) :
  arr_set nm a i v = Ok a' -> length a' = length a.
Proof. intros H. apply arr_set_Ok_inv in H as [_ ->]. apply length_insert. Qed.

Lemma arr_values_of (nm : string) (i : Z) (l : list Z) :
  arr_values nm i (array_of l) = Ok l.
Proof.
  revert i. induction l as [|v l IH]; intros i; simpl; [reflexivity|].
  unfold array_of in IH. now rewrite IH.
Qed.

Lemma arr_values_Ok_inv (nm : string) (a : array) :
  forall (i : Z) (l : list Z), arr_values nm i a = Ok l -> a = array_of l.
Proof.
  induction a as [|[v|] a IH]; intros i l H; simpl in H.
  - inversion H. reflexivity.
  - inv_bind H. inversion H; subst. simpl. f_equal. eapply IH; eauto.
  - discriminate.
Qed.

(** The two rules for [for_loop]: an invariant that every iteration
    re-establishes gives a result; an invariant that every successful
    iteration keeps holds of any result. *)
Lemma for_loop_total {S : Type} (P : nat -> S -> Prop) (n : nat)
    (body : Z -> S -> outcome S) (s0 : S) :
  P O s0 ->
  (forall (k : nat) (s : S), (k < n)%nat -> P k s ->
     exists s', body (Z.of_nat k) s = Ok s' /\ P (Datatypes.S k) s') ->
  exists s, for_loop n body s0 = Ok s /\ P n s.
Proof.
  intros H0 Hstep. induction n as [|n IH]; simpl.
  - eauto.
  - destruct IH as (s & -> & Hs); [intros; apply Hstep; [lia | assumption]|].
    simpl. apply Hstep; [lia | assumption].
Qed.

Lemma for_loop_partial {S : Type} (P : nat -> S -> Prop) (n : nat)
    (body : Z -> S -> outcome S) (s0 s : S) :
  P O s0 ->
  (forall (k : nat) (s s' : S), (k < n)%nat -> P k s ->
     body (Z.of_nat k) s = Ok s' -> P (Datatypes.S k) s') ->
  for_loop n body s0 = Ok s -> P n s.
Proof.
  intros H0 Hstep. revert s. induction n as [|n IH]; simpl; intros s H.
  - inversion H; subst. assumption.
  - inv_bind H. eapply Hstep; [lia | | eassumption].
    apply IH; [intros; eapply Hstep; eauto; lia | assumption].
Qed.

(** A loop that fails at iteration [k] fails in the same way however long
    it is meant to run. *)
Lemma for_loop_fails_later {S : Type} (n k : nat) (body : Z -> S -> outcome S)
    (s0 sk : S) (bad : outcome S) :
  (k < n)%nat -> for_loop k body s0 = Ok sk -> body (Z.of_nat k) sk = bad ->
  is_Ok bad = false ->
  for_loop n body s0 = bad.
Proof.
  intros Hk Hpre Hbad Hne. induction n as [|n IH]; [lia|].
  simpl. destruct (Nat.eq_dec k n) as [->|Hkn].
  - rewrite Hpre. simpl. exact Hbad.
  - rewrite IH by lia. destruct bad; [discriminate | reflexivity ..].
Qed.

(** ** Filling [out_dims_] *)

Lemma fill_out_dims_length (n : nat) (f : Z -> outcome Z) (od0 od : array) :
  fill_out_dims n f od0 = Ok od -> length od = length od0.
Proof.
  unfold fill_out_dims.
  apply (for_loop_partial (fun _ od => length od = length od0)); [reflexivity|].
  intros k s s' _ Hs H. inv_bind H. apply arr_set_length in H. congruence.
Qed.

(** The loop [for (r = 0; r < n; r++) arr[r] = f(r);] on an array with at
    least [n] cells. *)
Lemma fill_loop_Ok (nm : string) (n : nat) (f : Z -> outcome Z) (vs : list Z)
    (od0 : list (option Z)) :
  length vs = n -> (n <= length od0)%nat ->
  (forall (k : nat) (v : Z), vs !! k = Some v -> f (Z.of_nat k) = Ok v) ->
  for_loop n (fun r od => v <- f r ;; arr_set nm od r v) od0
  = Ok (array_of vs ++ drop n od0).
Proof.
  intros Hlen Hn Hf.
  destruct (for_loop_total
              (fun k od => od = array_of (take k vs) ++ drop k od0) n
              (fun r od => v <- f r ;; arr_set nm od r v) od0)
    as (od & -> & Hod).
  - reflexivity.
  - intros k s Hk ->.
    destruct (lookup_lt_is_Some_2 vs k) as [v Hv]; [lia|].
    rewrite (Hf k v Hv). simpl.
    assert (Hl : length (array_of (take k vs)) = k).
    { unfold array_of. rewrite length_map, length_take. lia. }
    rewrite arr_set_in.
    2:{ rewrite length_app, Hl, length_drop. lia. }
    eexists; split; [reflexivity|].
    rewrite Nat2Z.id.
    rewrite insert_app_r_alt by lia. rewrite Hl, Nat.sub_diag.
    destruct (drop k od0) as [|c rest] eqn:Hd.
    { apply (f_equal length) in Hd. rewrite length_drop in Hd. simpl in Hd. lia. }
    simpl. rewrite (take_S_r vs k v Hv). unfold array_of. rewrite map_app. simpl.
    rewrite <- app_assoc. simpl. do 2 f_equal.
    replace (Datatypes.S k) with (k + 1)%nat by lia.
    now rewrite <- drop_drop, Hd.
  - rewrite Hod. now rewrite take_ge by lia.
Qed.

Lemma fill_out_dims_Ok (n : nat) (f : Z -> outcome Z) (vs : list Z)
    (od0 : list (option Z)) :
  length vs = n -> (n <= length od0)%nat ->
  (forall (k : nat) (v : Z), vs !! k = Some v -> f (Z.of_nat k) = Ok v) ->
  fill_out_dims n f od0 = Ok (array_of vs ++ drop n od0).
Proof. apply fill_loop_Ok. Qed.

(** Filling more cells than the array has runs off its end. *)
Lemma fill_out_dims_overrun (n : nat) (f : Z -> outcome Z) (vs : list Z) (od0 : array) :
  length vs = n -> (length od0 < n)%nat ->
  (forall (k : nat) (v : Z), vs !! k = Some v -> f (Z.of_nat k) = Ok v) ->
  fill_out_dims n f od0
  = Undefined (ArrayIndex "out_dims_" (Z.of_nat (length od0)) (length od0)).
Proof.
  intros Hlen Hn Hf. unfold fill_out_dims.
  set (m := length od0).
  assert (Hpre : for_loop m (fun r od => v <- f r ;; arr_set "out_dims_" od r v) od0
                 = Ok (array_of (take m vs) ++ drop m od0)).
  { apply (fill_out_dims_Ok m f (take m vs) od0).
    - rewrite length_take. lia.
    - reflexivity.
    - intros k v Hk. apply Hf. now apply lookup_take_Some in Hk as [? _]. }
  destruct (lookup_lt_is_Some_2 vs m) as [v Hv]; [lia|].
  erewrite (for_loop_fails_later n m); [| lia | exact Hpre | | ].
  2:{ rewrite (Hf m v Hv). simpl. apply arr_set_beyond.
      unfold array_of. rewrite length_app, length_map, length_take, length_drop.
      subst m. lia. }
  - unfold array_of.
    rewrite length_app, length_map, length_take, length_drop.
    subst m. do 2 f_equal; lia.
  - reflexivity.
Qed.

(** ** Extents *)

Lemma sizes_upto_Ok_inv (n : Op) (k : nat) (sh : list Z) :
  sizes_upto n k = Ok sh ->
  length sh = k /\
  forall (j : nat) (v : Z), sh !! j = Some v -> Size n (Z.of_nat j) = Ok v.
Proof.
  revert sh. induction k as [|k IH]; simpl; intros sh H.
  - inversion H; subst. split; [reflexivity | intros j v Hj; discriminate].
  - inv_bind H. inv_bind H. injection H as <-.
    destruct (IH _ E) as [Hlen Hsz]. split.
    + rewrite length_app. simpl. lia.
    + intros j v Hj. apply lookup_app_Some in Hj as [Hj | [Hge Hj]].
      * now apply Hsz.
      * rewrite Hlen in Hge, Hj.
        destruct (j - k)%nat as [|m] eqn:Hm; [|discriminate].
        simpl in Hj. injection Hj as <-. replace j with k by lia. assumption.
Qed.

Lemma sizes_upto_Ok (n : Op) (sh : list Z) :
  (forall (j : nat) (v : Z), sh !! j = Some v -> Size n (Z.of_nat j) = Ok v) ->
  sizes_upto n (length sh) = Ok sh.
Proof.
  induction sh as [|v sh IH] using rev_ind; intros H; [reflexivity|].
  rewrite length_app. simpl. rewrite Nat.add_1_r. simpl.
  rewrite IH.
  - simpl. rewrite (H (length sh) v); [reflexivity|].
    rewrite lookup_app_r by lia. now rewrite Nat.sub_diag.
  - intros j w Hj. apply H. rewrite lookup_app_l; [assumption|].
    now apply lookup_lt_Some in Hj.
Qed.

Lemma extents_Ok_inv (n : Op) (sh : list Z) :
  extents n = Ok sh ->
  length sh = Rank n /\
  forall (j : nat) (v : Z), sh !! j = Some v -> Size n (Z.of_nat j) = Ok v.
Proof. apply sizes_upto_Ok_inv. Qed.

Lemma extents_Tensor (sh : list Z) (d : storage) :
  extents (Tensor (mkTensor sh d)) = Ok sh.
Proof.
  unfold extents. simpl. apply sizes_upto_Ok.
  intros j v Hj. simpl. now apply arr_get_of.
Qed.

(** A node whose [out_dims_] starts with the extents [sh] reports them. *)
Lemma arr_get_prefix (nm : string) (sh : list Z) (rest : array) (j : nat) (v : Z) :
  sh !! j = Some v -> arr_get nm (array_of sh ++ rest) (Z.of_nat j) = Ok v.
Proof.
  intros Hj. apply arr_get_lookup; [lia|]. rewrite Nat2Z.id.
  rewrite lookup_app_l.
  - unfold array_of. now rewrite list_lookup_fmap, Hj.
  - unfold array_of. rewrite length_map. now apply lookup_lt_Some in Hj.
Qed.

(** ** cumsum.h, trace.h, cov.h: the output shape *)

(** A cumulative-sum node has the rank and the extents of its input. *)
Lemma cumsum_extents (a : Op) (sh : list Z) :
  extents a = Ok sh ->
  exists n, cumsum a = Ok n /\ Rank n = Rank a /\ extents n = Ok sh.
Proof.
  intros Ha. destruct (extents_Ok_inv _ _ Ha) as [Hlen Hsz].
  unfold cumsum, CumSumOp_ctor.
  rewrite (fill_out_dims_Ok (Rank a) (Size a) sh).
  - simpl. eexists; split; [reflexivity|]. split; [reflexivity|].
    unfold extents. simpl. rewrite <- Hlen. apply sizes_upto_Ok.
    intros j v Hj. simpl. now apply arr_get_prefix.
  - assumption.
  - unfold array_new. now rewrite length_replicate.
  - assumption.
Qed.

(** A trace node is a scalar: rank 0, no extent. *)
Lemma trace_scalar (a : Op) :
  Rank (trace a) = O /\ extents (trace a) = Ok [].
Proof. split; reflexivity. Qed.

(** A covariance node over an input of rank at most 2 has the rank and the
    extents of its input. *)
Lemma cov_extents_rank_le_2 (a : Op) (sh : list Z) :
  extents a = Ok sh -> (Rank a <= 2)%nat ->
  exists n, cov a = Ok n /\ Rank n = Rank a /\ extents n = Ok sh.
Proof.
  intros Ha Hr. destruct (extents_Ok_inv _ _ Ha) as [Hlen Hsz].
  unfold cov, CovOp_ctor.
  rewrite (fill_out_dims_Ok (Rank a) (Size a) sh).
  - simpl. eexists; split; [reflexivity|]. split; [reflexivity|].
    unfold extents. simpl. rewrite <- Hlen. apply sizes_upto_Ok.
    intros j v Hj. simpl. now apply arr_get_prefix.
  - assumption.
  - simpl. lia.
  - assumption.
Qed.

(** Over an input of rank above 2 the constructor writes [out_dims_[2]],
    outside the array of two. *)
Lemma cov_overrun_rank_gt_2 (a : Op) (sh : list Z) :
  extents a = Ok sh -> (2 < Rank a)%nat ->
  cov a = Undefined (ArrayIndex "out_dims_" 2 2).
Proof.
  intros Ha Hr. destruct (extents_Ok_inv _ _ Ha) as [Hlen Hsz].
  unfold cov, CovOp_ctor.
  rewrite (fill_out_dims_overrun (Rank a) (Size a) sh); try assumption.
  reflexivity.
Qed.

(** The shape is held by the node, the values by the caller's storage:
    a write to the operand's buffer shows in the next read of the operand
    and leaves the node's extents as they were computed. *)
Lemma shape_frozen_values_not (sh : list Z) (p : nat) (st : store) (ix : list Z) (v : Z) :
  length ix = length sh ->
  (exists n, cumsum (tensor_of sh p) = Ok n /\ extents n = Ok sh)
  /\ extents (trace (tensor_of sh p)) = Ok []
  /\ (r <- Op_at (tensor_of sh p) ix ;; load (poke st p ix v) r) = Ok v.
Proof.
  intros Hix. split; [|split].
  - destruct (cumsum_extents (tensor_of sh p) sh) as (n & Hn & _ & He).
    + apply extents_Tensor.
    + eauto.
  - reflexivity.
  - simpl. unfold tensor_at. simpl.
    rewrite Hix, Nat.eqb_refl. simpl. unfold load, poke. simpl.
    destruct (decide (p = p /\ ix = ix)) as [_|Hn]; [reflexivity|].
    destruct Hn. now split.
Qed.

(** C9. The covariance node keeps its output extents in an array of two
    cells, its constructor writes one cell per input dimension and [Size]
    reads the same array.  Over an input of rank at most 2 every one of
    these accesses is in bounds and [Size(r)] is the input's extent; over
    an input of rank above 2 the constructor indexes the array out of
    bounds, at cell 2.  So the construction is defined exactly for the
    ranks up to 2. *)
Theorem cov_out_dims_in_bounds_iff (a : Op) (sh : list Z) :
  extents a = Ok sh ->
  ((Rank a <= 2)%nat ->
     exists od, cov a = Ok (CovOp a od (tensor_default (Rank a)))
                /\ length od = 2%nat
                /\ forall (r : nat) (v : Z), sh !! r = Some v ->
                     Size (CovOp a od (tensor_default (Rank a))) (Z.of_nat r) = Ok v)
  /\ ((2 < Rank a)%nat -> cov a = Undefined (ArrayIndex "out_dims_" 2 2))
  /\ is_Ok (cov a) = (Rank a <=? 2)%nat.
Proof.
  intros Ha. destruct (extents_Ok_inv _ _ Ha) as [Hlen Hsz].
  assert (Hle : (Rank a <= 2)%nat ->
            cov a = Ok (CovOp a (array_of sh ++ drop (Rank a) (array_new 2))
                              (tensor_default (Rank a)))).
  { intros Hr. unfold cov, CovOp_ctor.
    rewrite (fill_out_dims_Ok (Rank a) (Size a) sh); try assumption. reflexivity. }
  split; [|split].
  - intros Hr. eexists. split; [apply Hle; assumption|]. split.
    + unfold array_of, array_new.
      rewrite length_app, length_map, length_drop, length_replicate. lia.
    + intros r v Hr'. simpl. now apply arr_get_prefix.
  - intros Hr. now apply (cov_overrun_rank_gt_2 a sh).
  - destruct (Nat.leb_spec (Rank a) 2) as [Hr|Hr].
    + now rewrite Hle.
    + now rewrite (cov_overrun_rank_gt_2 a sh).
Qed.

Lemma cov_out_dims_in_bounds_iff_witness :
  cov (tensor_of [2; 3; 4] 0) = Undefined (ArrayIndex "out_dims_" 2 2)
  /\ is_Ok (cov (tensor_of [2; 3] 0)) = true.
Proof.
  split.
  - apply (proj1 (proj2 (cov_out_dims_in_bounds_iff
                           (tensor_of [2; 3; 4] 0) [2; 3; 4] eq_refl))).
    simpl. lia.
  - apply (proj2 (proj2 (cov_out_dims_in_bounds_iff
                           (tensor_of [2; 3] 0) [2; 3] eq_refl))).
Defined.

(** C7. A covariance or cumulative-sum node has the rank and extents of
    its input and a trace node is a scalar.  The cumulative-sum and trace
    nodes do so at every rank; the covariance node over the rank-3 input
    of extents [2; 3; 4] does not: its constructor runs off its
    two-cell extent array and no node with the extents [2; 3; 4] is
    built. *)
Theorem cov_rank3_extents_not_kept :
  extents (tensor_of [2; 3; 4] 0) = Ok [2; 3; 4]
  /\ cov (tensor_of [2; 3; 4] 0) = Undefined (ArrayIndex "out_dims_" 2 2)
  /\ (exists n, cumsum (tensor_of [2; 3; 4] 0) = Ok n
                /\ Rank n = 3%nat /\ extents n = Ok [2; 3; 4])
  /\ Rank (trace (tensor_of [2; 3; 4] 0)) = 0%nat.
Proof.
  split; [reflexivity|]. split; [reflexivity|]. split; [|reflexivity].
  eexists. split; [reflexivity|]. split; reflexivity.
Qed.

(** ** matmul.h: the output shape *)

Lemma Size_lookup (n : Op) (sh : list Z) (z : Z) (v : Z) :
  extents n = Ok sh -> 0 <= z -> sh !! Z.to_nat z = Some v -> Size n z = Ok v.
Proof.
  intros Hn Hz Hv. destruct (extents_Ok_inv _ _ Hn) as [_ Hsz].
  rewrite <- (Z2Nat.id z) by assumption. now apply Hsz.
Qed.

(** Without a permutation and with operands of one rank, at least 2, the
    node reports A's extents in the batch dimensions and in the
    second-to-last dimension, and B's extent in the last; nothing is
    printed. *)
Lemma matmul_extents_no_permute (a b : Op) (alpha beta : Q) (sa sb : list Z) :
  extents a = Ok sa -> extents b = Ok sb ->
  Rank a = Rank b -> (2 <= Rank a)%nat ->
  exists n, matmul a b alpha beta = Ok (n, [])
            /\ Rank n = Rank a
            /\ extents n = Ok (matmul_shape_rule sa sb).
Proof.
  intros Ha Hb Hab Hr.
  destruct (extents_Ok_inv _ _ Ha) as [Hla Hsa].
  destruct (extents_Ok_inv _ _ Hb) as [Hlb Hsb].
  set (R := Rank a) in *.
  destruct (lookup_lt_is_Some_2 sa (R - 2)) as [m Hm]; [lia|].
  destruct (lookup_lt_is_Some_2 sb (R - 1)) as [l Hl]; [lia|].
  assert (HZ2 : Z.to_nat (Z.of_nat R - 2) = (R - 2)%nat) by lia.
  assert (HZ1 : Z.to_nat (Z.of_nat R - 1) = (R - 1)%nat) by lia.
  unfold matmul, MatMulOp_ctor. fold R. rewrite <- Hab. fold R.
  rewrite HZ2.
  rewrite (fill_out_dims_Ok (R - 2) (Size a) (take (R - 2) sa)).
  2:{ rewrite length_take. lia. }
  2:{ unfold array_new. rewrite length_replicate. lia. }
  2:{ intros k v Hk. apply Hsa. now apply lookup_take_Some in Hk as [? _]. }
  simpl.
  rewrite (Size_lookup a sa (Z.of_nat R - 2) m Ha) by (rewrite ?HZ2; auto; lia).
  simpl.
  assert (Hd : drop (R - 2) (array_new R) = [None; None]).
  { unfold array_new. rewrite drop_replicate.
    replace (R - (R - 2))%nat with 2%nat by lia. reflexivity. }
  rewrite Hd.
  assert (Hpre : length (array_of (take (R - 2) sa)) = (R - 2)%nat).
  { unfold array_of. rewrite length_map, length_take. lia. }
  rewrite arr_set_in by (rewrite length_app, Hpre; simpl; lia).
  simpl.
  rewrite (Size_lookup b sb (Z.of_nat R - 1) l Hb) by (rewrite ?HZ1; auto; lia).
  simpl.
  rewrite arr_set_in
    by (rewrite length_insert, length_app, Hpre; simpl; lia).
  simpl. eexists. split; [reflexivity|]. split; [reflexivity|].
  rewrite HZ2, HZ1.
  rewrite insert_app_r_alt by lia. rewrite Hpre, Nat.sub_diag. simpl.
  rewrite insert_app_r_alt by lia. rewrite Hpre.
  replace (R - 1 - (R - 2))%nat with 1%nat by lia. simpl.
  assert (Hrule : matmul_shape_rule sa sb = take (R - 2) sa ++ [m; l]).
  { unfold matmul_shape_rule. rewrite Hla, Hlb, <- Hab. fold R.
    replace (R - 1)%nat with (Datatypes.S (R - 2)) at 1 by lia.
    rewrite (take_S_r sa (R - 2) m Hm), <- app_assoc. simpl. do 2 f_equal.
    rewrite (drop_S sb l (R - 1) Hl).
    rewrite drop_ge by lia. reflexivity. }
  rewrite Hrule.
  unfold extents. simpl. fold R.
  assert (HR : length (take (R - 2) sa ++ [m; l]) = R)
    by (rewrite length_app, length_take; simpl; lia).
  match goal with
  | |- sizes_upto ?n _ = _ =>
      pose proof (sizes_upto_Ok n (take (R - 2) sa ++ [m; l])) as Hgoal
  end.
  rewrite HR in Hgoal. apply Hgoal. clear Hgoal.
  intros j v Hj. simpl.
  change (array_of (take (R - 2) sa) ++ [Some m; Some l])
    with (array_of (take (R - 2) sa) ++ array_of [m; l]).
  unfold array_of. rewrite <- map_app.
  apply arr_get_lookup; [lia|]. rewrite Nat2Z.id.
  now rewrite list_lookup_fmap, Hj.
Qed.

(** C1. Without a permutation, A = [4, 3] and B = [3, 5] report [4, 5], as
    the rule says.  With the axis pair (0, 1) on the rank-3 operands
    A = [4, 3, 7] and B = [3, 5, 7] the rule (permute, apply, permute back)
    gives [4, 5, 7]; the node reports [5, 4, 4], which is neither that nor
    the extents [4, 3, 7] of the rule without permutation.  With the pair
    (0, 2) on A = [4, 7, 3] and B = [3, 7, 5] the rule gives [4, 7, 5] and
    the node reports [4, 4, 5]. *)
Theorem matmul_axis_extents_differ_from_rule :
  (r <- matmul (tensor_of [4; 3] 0) (tensor_of [3; 5] 1) 1%Q 0%Q ;; extents (fst r))
    = Ok [4; 5]
  /\ matmul_shape_rule [4; 3] [3; 5] = [4; 5]
  /\ (r <- matmul_axis (tensor_of [4; 3; 7] 0) (tensor_of [3; 5; 7] 1) (0, 1) 1%Q 0%Q ;;
      extents (fst r)) = Ok [5; 4; 4]
  /\ matmul_axis_shape_rule [4; 3; 7] [3; 5; 7] (0, 1) = Ok [4; 5; 7]
  /\ matmul_shape_rule [4; 3; 7] [3; 5; 7] = [4; 3; 7]
  /\ (r <- matmul_axis (tensor_of [4; 7; 3] 0) (tensor_of [3; 7; 5] 1) (0, 2) 1%Q 0%Q ;;
      extents (fst r)) = Ok [4; 4; 5]
  /\ matmul_axis_shape_rule [4; 7; 3] [3; 7; 5] (0, 2) = Ok [4; 7; 5].
Proof. repeat split; vm_compute; reflexivity. Qed.

(** The rule and the code agree when the chosen pair is already the
    trailing pair. *)
Example matmul_axis_trailing_pair :
  (r <- matmul_axis (tensor_of [7; 4; 3] 0) (tensor_of [7; 3; 5] 1) (1, 2) 1%Q 0%Q ;;
   extents (fst r)) = matmul_axis_shape_rule [7; 4; 3] [7; 3; 5] (1, 2).
Proof. vm_compute. reflexivity. Qed.

(** ** matmul.h: the print in the constructor *)

Lemma MatMulOp_ctor_perm_Ok_inv (a b : Op) (alpha beta : Q) (pm : list Z)
    (n : Op) (out : list event) :
  MatMulOp_ctor a b alpha beta (Some pm) = Ok (n, out) ->
  (3 <= Rank a)%nat
  /\ exists x0 x1 x2,
       Size n 0 = Ok x0 /\ Size n 1 = Ok x1 /\ Size n 2 = Ok x2
       /\ out = [Printf printf_fmt [x0; x1; x2]].
Proof.
  unfold MatMulOp_ctor. intros H.
  inv_bind H. rename x into od. rename E into Hod.
  inv_bind H. rename x into x0. rename E into H0.
  inv_bind H. rename x into x1. rename E into H1.
  inv_bind H. rename x into x2. rename E into H2.
  injection H as <- <-.
  apply fill_out_dims_length in Hod.
  unfold array_new in Hod. rewrite length_replicate in Hod.
  split.
  - destruct (arr_get_Ok_inv _ _ _ _ H2) as [_ Hl].
    apply lookup_lt_Some in Hl. lia.
  - exists x0, x1, x2. simpl. auto.
Qed.

Lemma MatMulOp_ctor_perm_low_rank (a b : Op) (alpha beta : Q) (pm : list Z) :
  (Rank a < 3)%nat -> is_Ok (MatMulOp_ctor a b alpha beta (Some pm)) = false.
Proof.
  intros Hr. destruct (MatMulOp_ctor a b alpha beta (Some pm)) as [[n out]| | | |] eqn:E;
    try reflexivity.
  apply MatMulOp_ctor_perm_Ok_inv in E as [H3 _]. lia.
Qed.

(** The permutations of a rank-2 operand. *)
Lemma getPermuteDims_rank2 (axis : Z * Z) (pm : list Z) :
  getPermuteDims 2 axis = Ok pm -> pm = [0; 1] \/ pm = [1; 0].
Proof.
  destruct axis as [a0 a1]. unfold getPermuteDims. intros H.
  destruct ((0 <=? a0) && (a0 <? Z.of_nat 2) && ((0 <=? a1) && (a1 <? Z.of_nat 2)))
    eqn:Hrange; [|discriminate].
  destruct (negb (a0 =? a1)) eqn:Hne; [|discriminate].
  simpl in H.
  apply andb_prop in Hrange as [Ha0 Ha1].
  apply andb_prop in Ha0 as [Ha0 Ha0']. apply andb_prop in Ha1 as [Ha1 Ha1'].
  apply negb_true_iff, Z.eqb_neq in Hne.
  apply Z.leb_le in Ha0, Ha1. apply Z.ltb_lt in Ha0', Ha1'.
  assert (Hcases : (a0 = 0 /\ a1 = 1) \/ (a0 = 1 /\ a1 = 0)) by lia.
  destruct Hcases as [[-> ->] | [-> ->]]; vm_compute in H; injection H as <-; auto.
Qed.

(** On rank-2 operands the print reads [out_dims_[2]], one past the end. *)
Lemma matmul_axis_rank2_overrun (A B : Op) (axis : Z * Z) (alpha beta : Q)
    (sa sb pm : list Z) :
  extents A = Ok sa -> extents B = Ok sb ->
  Rank A = 2%nat -> Rank B = 2%nat ->
  getPermuteDims 2 axis = Ok pm ->
  matmul_axis A B axis alpha beta = Undefined (ArrayIndex "out_dims_" 2 2).
Proof.
  intros Ha Hb HrA HrB Hpm.
  destruct (extents_Ok_inv _ _ Ha) as [Hla Hsa].
  destruct (extents_Ok_inv _ _ Hb) as [Hlb Hsb].
  rewrite HrA in Hla. rewrite HrB in Hlb.
  destruct sa as [|a0 [|a1 [|? ?]]]; try discriminate.
  destruct sb as [|b0 [|b1 [|? ?]]]; try discriminate.
  pose proof (Hsa 0%nat a0 eq_refl) as Ha0. pose proof (Hsa 1%nat a1 eq_refl) as Ha1.
  pose proof (Hsb 0%nat b0 eq_refl) as Hb0. pose proof (Hsb 1%nat b1 eq_refl) as Hb1.
  change (Z.of_nat 0) with 0 in Ha0, Hb0. change (Z.of_nat 1) with 1 in Ha1, Hb1.
  unfold matmul_axis. rewrite HrA, HrB. simpl static_assert. cbn [obind].
  rewrite Hpm. cbn [obind].
  unfold MatMulOp_ctor, permute, fill_out_dims. simpl Rank. rewrite HrA.
  apply getPermuteDims_rank2 in Hpm as [-> | ->];
    unfold MatMulOp_perm_dim; simpl; rewrite HrA; simpl;
    change (Z.of_nat 0) with 0; change (Z.of_nat 1) with 1;
    rewrite ?Ha0, ?Ha1, ?Hb0, ?Hb1; simpl;
    rewrite ?Ha0, ?Ha1, ?Hb0, ?Hb1; reflexivity.
Qed.

(** C10. With an explicit axis permutation the constructor prints the first
    three output extents: every permuted construction that returns has
    printed exactly the line of [out_dims_[0]], [out_dims_[1]] and
    [out_dims_[2]], and its operands have rank at least 3.  Below rank 3 no
    permuted construction returns, and on rank-2 operands built by
    [matmul] with an axis pair the read of [out_dims_[2]] is one past the
    end of the two-cell array.  The construction without a permutation
    prints nothing. *)
Theorem matmul_perm_prints_first_three_extents
    (a b : Op) (alpha beta : Q) (pm : list Z) :
  (forall n out, MatMulOp_ctor a b alpha beta (Some pm) = Ok (n, out) ->
     (3 <= Rank a)%nat
     /\ exists x0 x1 x2,
          Size n 0 = Ok x0 /\ Size n 1 = Ok x1 /\ Size n 2 = Ok x2
          /\ out = [Printf printf_fmt [x0; x1; x2]])
  /\ ((Rank a < 3)%nat -> is_Ok (MatMulOp_ctor a b alpha beta (Some pm)) = false)
  /\ (forall axis sa sb,
        extents a = Ok sa -> extents b = Ok sb ->
        Rank a = 2%nat -> Rank b = 2%nat -> getPermuteDims 2 axis = Ok pm ->
        matmul_axis a b axis alpha beta = Undefined (ArrayIndex "out_dims_" 2 2))
  /\ (forall n out, MatMulOp_ctor a b alpha beta None = Ok (n, out) -> out = []).
Proof.
  split; [|split; [|split]].
  - intros n out. apply MatMulOp_ctor_perm_Ok_inv.
  - apply MatMulOp_ctor_perm_low_rank.
  - intros axis sa sb Ha Hb HrA HrB Hpm.
    now apply (matmul_axis_rank2_overrun a b axis alpha beta sa sb pm).
  - intros n out H. unfold MatMulOp_ctor in H.
    repeat inv_bind H. now injection H as <- <-.
Qed.

Lemma matmul_perm_prints_first_three_extents_witness :
  (exists n, matmul_axis (tensor_of [7; 4; 3] 0) (tensor_of [7; 3; 5] 1) (1, 2) 1%Q 0%Q
             = Ok (n, [Printf printf_fmt [7; 4; 5]]))
  /\ matmul_axis (tensor_of [4; 3] 0) (tensor_of [3; 5] 1) (0, 1) 1%Q 0%Q
     = Undefined (ArrayIndex "out_dims_" 2 2).
Proof.
  split.
  - destruct (matmul_axis (tensor_of [7; 4; 3] 0) (tensor_of [7; 3; 5] 1) (1, 2) 1%Q 0%Q)
      as [[n out]| | | |] eqn:E; try (vm_compute in E; discriminate).
    exists n. f_equal. f_equal.
    pose proof (proj1 (matmul_perm_prints_first_three_extents
                         (permute (tensor_of [7; 4; 3] 0) [0; 1; 2])
                         (permute (tensor_of [7; 3; 5] 1) [0; 1; 2])
                         1%Q 0%Q [0; 1; 2]) n out E) as [_ (x0 & x1 & x2 & H0 & H1 & H2 & ->)].
    vm_compute in E. injection E as <-.
    vm_compute in H0, H1, H2. injection H0 as <-. injection H1 as <-. injection H2 as <-.
    reflexivity.
  - apply (proj1 (proj2 (proj2 (matmul_perm_prints_first_three_extents
                                  (tensor_of [4; 3] 0) (tensor_of [3; 5] 1)
                                  1%Q 0%Q [0; 1])))
             (0, 1) [4; 3] [3; 5]); reflexivity.
Defined.

(** ** qr.h: the multi-output nodes *)

(** C6. A QR node ([qr], [cusolver_qr]) can only be the direct right-hand
    side of an assignment to a tuple of three destinations: its element
    access is rejected for every index list; [PreRun] fails at once, under
    every executor, with the error [matxNotSupported] and the diagnostic
    that names the required use, and so does the [PreRun] of a node that
    has it as operand; [Exec] is accepted exactly when the destination
    tuple has arity 3 (and the executor is the device one), and a tuple of
    another arity is refused with the diagnostic that names the arity. *)
Theorem qr_single_assignment_only
    (a : Op) (indices : list Z) (ex : Executor) (out : list tensor_t) :
  Op_at (qr a) indices = IllFormed "operator() const = delete"
  /\ Op_at (cusolver_qr a) indices = IllFormed "operator() const = delete"
  /\ PreRun (qr a) ex
     = Throw matxNotSupported "qr() must only be called with a single assignment"
  /\ PreRun (cusolver_qr a) ex
     = Throw matxNotSupported
         "cusolver_qr() must only be called with a single assignment since it has multiple return types"
  /\ (forall od tmp, is_Ok (PreRun (CumSumOp (qr a) od tmp) ex) = false
                     /\ is_Ok (PreRun (CovOp (qr a) od tmp) ex) = false
                     /\ is_Ok (PreRun (TraceOp (qr a) tmp) ex) = false)
  /\ is_Ok (Exec (qr a) out ex) = is_device_executor_v ex && (length out =? 3)%nat
  /\ is_Ok (Exec (cusolver_qr a) out ex)
     = is_device_executor_v ex && (length out =? 3)%nat
  /\ ((length out =? 3)%nat = false ->
      Exec (qr a) out (DeviceExecutor 0)
      = IllFormed "Must use mtie with 3 outputs on qr(). ie: (mtie(Q, R) = qr(A))")
  /\ (forall q r o, Exec (qr a) [o; q; r] (DeviceExecutor 0)
                    = Ok [Kernel "qr_impl" [Tensor o; Tensor q] [a]]).
Proof.
  repeat split; try reflexivity.
  - destruct ex; destruct out as [|o0 [|o1 [|o2 [|o3 out]]]]; reflexivity.
  - destruct ex; destruct out as [|o0 [|o1 [|o2 [|o3 out]]]]; reflexivity.
  - intros H. simpl. now rewrite H.
Qed.

Lemma qr_single_assignment_only_witness :
  Exec (qr (tensor_of [4; 4] 0)) [tensor_default 2] (DeviceExecutor 0)
  = IllFormed "Must use mtie with 3 outputs on qr(). ie: (mtie(Q, R) = qr(A))".
Proof.
  apply (proj1 (proj2 (proj2 (proj2 (proj2 (proj2 (proj2 (proj2
           (qr_single_assignment_only (tensor_of [4; 4] 0) [] (DeviceExecutor 0)
                                      [tensor_default 2]))))))))).
  reflexivity.
Defined.

(** ** PreRun: the owned temporary *)

(** C5, as stated, fails: under the host executor the [PreRun] of a trace
    node allocates the node's temporary, in host memory. *)
Lemma PreRun_host_allocates_for_trace :
  ~ (forall (n n' : Op) (ev : list event),
       PreRun n HostExecutor = Ok (n', ev) ->
       tmp_of n' = tmp_of n
       /\ forall sh space stream, ~ In (Alloc sh space stream) ev).
Proof.
  intros H.
  destruct (H (trace (tensor_of [3; 3] 0))
              (TraceOp (tensor_of [3; 3] 0) host_scalar_tmp)
              [Alloc [] MATX_HOST_MEMORY None;
               Kernel "trace_impl" [Tensor host_scalar_tmp] [tensor_of [3; 3] 0]]
              eq_refl) as [Htmp _].
  discriminate Htmp.
Qed.

(** C5, amended.  Once its operands are prepared, a covariance,
    cumulative-sum or matrix-multiply node allocates its temporary (of the
    extents in [out_dims_], in asynchronous device memory, on the
    executor's stream) under the device executor and only there: under the
    host executor the cumulative-sum node keeps its temporary and allocates
    nothing, and the covariance and matrix-multiply nodes are rejected.  A
    trace node allocates its rank-0 temporary under either executor: in
    device memory under the device one, in host memory under the host
    one. *)
Theorem PreRun_allocates_owned_temporary
    (a a' b b' : Op) (eva evb : list event) (od : array) (sh : list Z)
    (tmp : tensor_t) (alpha beta : Q) (perm : option (list Z)) (ex : Executor) :
  PreRun a ex = Ok (a', eva) -> PreRun b ex = Ok (b', evb) ->
  arr_values "out_dims_" 0 od = Ok sh ->
  match ex with
  | DeviceExecutor st =>
      PreRun (CovOp a od tmp) ex
      = Ok (CovOp a' od (device_tmp sh st),
            eva ++ [Alloc sh MATX_ASYNC_DEVICE_MEMORY (Some st);
                    Kernel "cov_impl" [Tensor (device_tmp sh st)] [a']])
      /\ PreRun (CumSumOp a od tmp) ex
         = Ok (CumSumOp a' od (device_tmp sh st),
               eva ++ [Alloc sh MATX_ASYNC_DEVICE_MEMORY (Some st);
                       Kernel "cumsum_impl" [Tensor (device_tmp sh st)] [a']])
      /\ (exists dest,
            PreRun (MatMulOp a b alpha beta perm od tmp) ex
            = Ok (MatMulOp a' b' alpha beta perm od (device_tmp sh st),
                  eva ++ evb ++ [Alloc sh MATX_ASYNC_DEVICE_MEMORY (Some st);
                                 Kernel "matmul_impl" [dest] [a'; b']]))
      /\ PreRun (TraceOp a tmp) ex
         = Ok (TraceOp a' (device_tmp [] st),
               eva ++ [Alloc [] MATX_ASYNC_DEVICE_MEMORY (Some st);
                       Kernel "trace_impl" [Tensor (device_tmp [] st)] [a']])
  | HostExecutor =>
      PreRun (CovOp a od tmp) ex
      = IllFormed "cov() only supports the CUDA executor currently"
      /\ PreRun (CumSumOp a od tmp) ex
         = Ok (CumSumOp a' od tmp, eva ++ [Kernel "cumsum_impl" [Tensor tmp] [a']])
      /\ PreRun (MatMulOp a b alpha beta perm od tmp) ex
         = IllFormed "matmul() only supports the CUDA executor currently"
      /\ PreRun (TraceOp a tmp) ex
         = Ok (TraceOp a' host_scalar_tmp,
               eva ++ [Alloc [] MATX_HOST_MEMORY None;
                       Kernel "trace_impl" [Tensor host_scalar_tmp] [a']])
  end.
Proof.
  intros Ha Hb Hod. destruct ex as [st|]; simpl; rewrite Ha; simpl.
  - unfold alloc_if_device, make_tensor. simpl. rewrite Hod, Hb. simpl.
    rewrite ?Hod. simpl.
    repeat split; try reflexivity.
    destruct perm as [pm|]; eexists; reflexivity.
  - rewrite Hb. simpl. repeat split; reflexivity.
Qed.

Lemma PreRun_allocates_owned_temporary_witness :
  PreRun (CumSumOp (tensor_of [2; 3] 0) (array_of [2; 3]) (tensor_default 2)) HostExecutor
  = Ok (CumSumOp (tensor_of [2; 3] 0) (array_of [2; 3]) (tensor_default 2),
        [Kernel "cumsum_impl" [Tensor (tensor_default 2)] [tensor_of [2; 3] 0]])
  /\ PreRun (CovOp (tensor_of [2; 3] 0) (array_of [2; 3]) (tensor_default 2))
            (DeviceExecutor 7)
     = Ok (CovOp (tensor_of [2; 3] 0) (array_of [2; 3]) (device_tmp [2; 3] 7),
           [Alloc [2; 3] MATX_ASYNC_DEVICE_MEMORY (Some 7);
            Kernel "cov_impl" [Tensor (device_tmp [2; 3] 7)] [tensor_of [2; 3] 0]]).
Proof.
  split.
  - apply (proj1 (proj2 (PreRun_allocates_owned_temporary
             (tensor_of [2; 3] 0) (tensor_of [2; 3] 0)
             (tensor_of [2; 3] 0) (tensor_of [2; 3] 0) [] []
             (array_of [2; 3]) [2; 3] (tensor_default 2) 1%Q 0%Q None HostExecutor
             eq_refl eq_refl eq_refl))).
  - apply (proj1 (PreRun_allocates_owned_temporary
             (tensor_of [2; 3] 0) (tensor_of [2; 3] 0)
             (tensor_of [2; 3] 0) (tensor_of [2; 3] 0) [] []
             (array_of [2; 3]) [2; 3] (tensor_default 2) 1%Q 0%Q None (DeviceExecutor 7)
             eq_refl eq_refl eq_refl)).
Defined.

(** ** slice.h: the constructor *)

Section SliceCtor.

Context {V L : Type} {sentinels : Sentinels}.

Lemma retained_from_snoc (i : Z) (es : list Z) (e : Z) :
  retained_from i (es ++ [e])
  = retained_from i es
    ++ (if e =? matxDropDim then [] else [i + Z.of_nat (length es)]).
Proof.
  revert i. induction es as [|e0 es IH]; intros i; simpl.
  - destruct (e =? matxDropDim); [reflexivity|]. f_equal. lia.
  - rewrite IH.
    replace (i + 1 + Z.of_nat (length es))
      with (i + Z.of_nat (Datatypes.S (length es))) by lia.
    destruct (e0 =? matxDropDim); reflexivity.
Qed.

Lemma retained_from_bounds (i : Z) (es : list Z) (k : nat) (p : Z) :
  retained_from i es !! k = Some p ->
  i + Z.of_nat k <= p < i + Z.of_nat (length es)
  /\ exists e, es !! Z.to_nat (p - i) = Some e /\ e <> matxDropDim.
Proof.
  revert i k. induction es as [|e0 es IH]; intros i k H; simpl in H; [discriminate|].
  destruct (Z.eqb_spec e0 matxDropDim) as [He|He].
  - destruct (IH _ _ H) as [Hb (e & He1 & He2)]. split; [simpl length; lia|].
    exists e. split; [|assumption].
    replace (Z.to_nat (p - i)) with (Datatypes.S (Z.to_nat (p - (i + 1)))) by lia.
    assumption.
  - destruct k as [|k]; simpl in H.
    + injection H as <-. split; [simpl length; lia|].
      exists e0. rewrite Z.sub_diag. now split.
    + destruct (IH _ _ H) as [Hb (e & He1 & He2)]. split; [simpl length; lia|].
      exists e. split; [|assumption].
      replace (Z.to_nat (p - i)) with (Datatypes.S (Z.to_nat (p - (i + 1)))) by lia.
      assumption.
Qed.

Lemma retained_length_le (es : list Z) :
  (length (retained es) <= length es)%nat.
Proof.
  unfold retained. generalize 0. induction es as [|e es IH]; intros i; simpl; [lia|].
  destruct (e =? matxDropDim); simpl; specialize (IH (i + 1)); lia.
Qed.

(** Retained dimensions are listed in their original order. *)
Lemma retained_increasing (es : list Z) (j k : nat) (p q : Z) :
  (j < k)%nat -> retained es !! j = Some p -> retained es !! k = Some q -> p < q.
Proof.
  unfold retained. generalize 0. revert j k.
  induction es as [|e es IH]; intros j k i Hjk Hp Hq; simpl in *; [discriminate|].
  destruct (e =? matxDropDim).
  - eapply IH; eauto.
  - destruct k as [|k]; [lia|]. destruct j as [|j]; simpl in *.
    + injection Hp as <-. apply retained_from_bounds in Hq as [Hq _]. lia.
    + eapply (IH j k); eauto. lia.
Qed.

Lemma retained_take_S (es : list Z) (k : nat) (e : Z) :
  es !! k = Some e ->
  retained (take (Datatypes.S k) es)
  = retained (take k es) ++ (if e =? matxDropDim then [] else [Z.of_nat k]).
Proof.
  intros He. rewrite (take_S_r es k e He). unfold retained.
  rewrite retained_from_snoc. rewrite length_take.
  apply lookup_lt_Some in He.
  replace (k `min` length es)%nat with k by lia. reflexivity.
Qed.

(** Writing the next free cell of a partly filled array. *)
Lemma array_fill_next (pre : list Z) (m : nat) (v : Z) :
  <[length pre := Some v]> (array_of pre ++ replicate (Datatypes.S m) None)
  = array_of (pre ++ [v]) ++ replicate m None.
Proof.
  unfold array_of. rewrite insert_app_r_alt by (rewrite length_map; lia).
  rewrite length_map, Nat.sub_diag. simpl.
  rewrite map_app, <- app_assoc. reflexivity.
Qed.

Lemma array_fill_at (pre : list Z) (c m : nat) (v : Z) :
  length pre = c ->
  <[c := Some v]> (array_of pre ++ replicate (Datatypes.S m) None)
  = array_of (pre ++ [v]) ++ replicate m None.
Proof. intros <-. apply array_fill_next. Qed.

Lemma array_fill_length (pre : list Z) (m : nat) :
  length (array_of pre ++ replicate m None) = (length pre + m)%nat.
Proof. unfold array_of. now rewrite length_app, length_map, length_replicate. Qed.

Section Ctor.

Variables (dim : nat) (op : Operand V L) (starts ends strides : list Z).

Let rank : nat := op_Rank op.

Hypothesis starts_len : length starts = rank.
Hypothesis ends_len : length ends = rank.
Hypothesis strides_len : length strides = rank.

Let body := SliceOp_ctor_body op (array_of starts) (array_of ends) (array_of strides).
Let init := mkCtorState 0 (array_new dim) (array_new dim) (array_new rank) (array_new rank).

(** What holds of the constructor's state after [k] iterations. *)
Let ctor_inv (k : nat) (s : ctor_state) : Prop :=
  let c := length (retained (take k ends)) in
  cs_d s = Z.of_nat c
  /\ (c <= dim)%nat
  /\ length (cs_sizes s) = dim
  /\ cs_dims s = array_of (retained (take k ends)) ++ replicate (dim - c) None
  /\ cs_starts s = array_of (take k starts) ++ replicate (rank - k) None
  /\ cs_strides s = array_of (take k strides) ++ replicate (rank - k) None.

Lemma ctor_inv_init : ctor_inv 0 init.
Proof.
  unfold ctor_inv, init, array_new. simpl.
  rewrite ?Nat.sub_0_r, length_replicate.
  repeat split; try reflexivity. lia.
Qed.

Lemma ctor_inv_step (k : nat) (s s' : ctor_state) :
  (k < rank)%nat -> ctor_inv k s -> body (Z.of_nat k) s = Ok s' ->
  ctor_inv (Datatypes.S k) s'.
Proof.
  intros Hk (Hd & Hc & Hsz & Hdims & Hst & Hstr) H.
  unfold body, SliceOp_ctor_body in H.
  inv_bind H. rename x into start. rename E into Estart.
  inv_bind H. rename x into e. rename E into Eend.
  inv_bind H. rename x into starts1. rename E into Estarts1.
  inv_bind H. rename x into stride. rename E into Estride.
  inv_bind H. rename x into strides1. rename E into Estrides1.
  apply arr_get_Ok_inv in Estart as [_ Estart].
  apply arr_get_Ok_inv in Eend as [_ Eend].
  apply arr_get_Ok_inv in Estride as [_ Estride].
  rewrite Nat2Z.id in Estart, Eend, Estride.
  unfold array_of in Estart, Eend, Estride.
  rewrite list_lookup_fmap in Estart, Eend, Estride.
  destruct (starts !! k) as [start'|] eqn:Hs; [|discriminate].
  destruct (ends !! k) as [e'|] eqn:He; [|discriminate].
  destruct (strides !! k) as [stride'|] eqn:Hstrd; [|discriminate].
  simpl in Estart, Eend, Estride.
  injection Estart as ->. injection Eend as ->. injection Estride as ->.
  apply arr_set_Ok_inv in Estarts1 as [_ ->].
  apply arr_set_Ok_inv in Estrides1 as [_ ->].
  rewrite !Nat2Z.id in H.
  assert (Hst' : <[k := Some start]> (cs_starts s)
                 = array_of (take (Datatypes.S k) starts)
                   ++ replicate (rank - Datatypes.S k) None).
  { rewrite Hst. replace (rank - k)%nat with (Datatypes.S (rank - Datatypes.S k)) by lia.
    rewrite (take_S_r starts k start Hs).
    rewrite <- array_fill_next. f_equal. rewrite length_take. lia. }
  assert (Hstr' : <[k := Some stride]> (cs_strides s)
                  = array_of (take (Datatypes.S k) strides)
                    ++ replicate (rank - Datatypes.S k) None).
  { rewrite Hstr. replace (rank - k)%nat with (Datatypes.S (rank - Datatypes.S k)) by lia.
    rewrite (take_S_r strides k stride Hstrd).
    rewrite <- array_fill_next. f_equal. rewrite length_take. lia. }
  unfold ctor_inv. rewrite (retained_take_S ends k e He).
  destruct (Z.eqb_spec e matxDropDim) as [Hdrop|Hkeep].
  - injection H as <-. simpl. rewrite app_nil_r. repeat split; assumption.
  - inv_bind H. rename x into dims1. rename E into Edims1.
    inv_bind H. rename x into sz. clear E.
    inv_bind H. rename x into sizes1. rename E into Esizes1.
    inv_bind H. clear E. inv_bind H. clear E. inv_bind H. clear E.
    inv_bind H. rename x2 into sizes2. rename E into Esizes2.
    injection H as <-. simpl.
    apply arr_set_Ok_inv in Edims1 as [Hrange ->].
    apply arr_set_length in Esizes1. apply arr_set_length in Esizes2.
    rewrite Hdims, array_fill_length in Hrange.
    rewrite Hd in Hrange |- *. rewrite Nat2Z.id.
    set (c := length (retained (take k ends))) in *.
    rewrite length_app. simpl.
    repeat split; try assumption; try lia.
    rewrite Hdims.
    replace (dim - c)%nat with (Datatypes.S (dim - (c + 1))) by lia.
    subst c. apply array_fill_next.
Qed.

(** A constructor that returns has stored the arguments and the retained
    dimensions in their original order, and their number is the declared
    rank. *)
Lemma SliceOp_ctor_Ok_inv (s : SliceOp V L) :
  SliceOp_ctor dim op starts ends strides = Ok s ->
  DIM s = dim /\ op_ s = op
  /\ length (retained ends) = dim
  /\ length (sizes_ s) = dim
  /\ dims_ s = array_of (retained ends)
  /\ starts_ s = array_of starts
  /\ strides_ s = array_of strides.
Proof.
  unfold SliceOp_ctor. fold rank. fold body. fold init. intros H.
  inv_bind H. clear E. inv_bind H. clear E. inv_bind H. clear E.
  inv_bind H. rename x2 into st. rename E into Eloop.
  inv_bind H. rename E into Eassert.
  injection H as <-. simpl.
  apply (for_loop_partial ctor_inv) in Eloop;
    [| apply ctor_inv_init | intros; eapply ctor_inv_step; eauto].
  destruct Eloop as (Hd & Hc & Hsz & Hdims & Hst & Hstr).
  unfold MATX_ASSERT_STR in Eassert.
  destruct (Z.eqb_spec (cs_d st) (Z.of_nat dim)) as [Heq|]; [|discriminate].
  rewrite Hd in Heq. apply Nat2Z.inj in Heq.
  rewrite take_ge in Heq, Hdims by lia.
  rewrite take_ge in Hst, Hstr by lia.
  rewrite Heq, Nat.sub_diag in Hdims. simpl in Hdims. rewrite app_nil_r in Hdims.
  rewrite Nat.sub_diag in Hst, Hstr. simpl in Hst, Hstr.
  rewrite app_nil_r in Hst, Hstr.
  repeat split; assumption.
Qed.

End Ctor.

End SliceCtor.

(** ** slice.h: element access *)

Section SliceAccess.

Context {V L : Type} {sentinels : Sentinels}.

(** One more output index touches the cell of the next retained dimension
    and no other. *)
Lemma ctor_index_from_snoc (all_strides : list Z) (ends : list Z) :
  forall (starts : list Z) (d : nat) (i0 : Z) (xs : list Z) (x p : Z),
    length starts = length ends ->
    retained_from i0 ends !! length xs = Some p ->
    exists s,
      starts !! Z.to_nat (p - i0) = Some s
      /\ ctor_index_from d all_strides starts ends xs !! Z.to_nat (p - i0) = Some s
      /\ ctor_index_from d all_strides starts ends (xs ++ [x])
         = <[Z.to_nat (p - i0) :=
               idx_add s (idx_mul x (default 0 (all_strides !! (d + length xs)%nat)))]>
             (ctor_index_from d all_strides starts ends xs).
Proof.
  induction ends as [|e es IH]; intros starts d i0 xs x p Hlen Hp; [discriminate|].
  destruct starts as [|s0 ss]; [discriminate|].
  simpl in Hlen. injection Hlen as Hlen. simpl in Hp |- *.
  destruct (e =? matxDropDim).
  - pose proof (retained_from_bounds _ _ _ _ Hp) as [Hb _].
    destruct (IH ss d (i0 + 1) xs x p Hlen Hp) as (s & Hs & Hcur & Hnext).
    replace (Z.to_nat (p - i0)) with (Datatypes.S (Z.to_nat (p - (i0 + 1)))) by lia.
    exists s. simpl. rewrite Hnext. auto.
  - destruct xs as [|x0 xs]; simpl in Hp |- *.
    + injection Hp as <-. rewrite Z.sub_diag. simpl.
      exists s0. rewrite Nat.add_0_r. auto.
    + pose proof (retained_from_bounds _ _ _ _ Hp) as [Hb _].
      destruct (IH ss (Datatypes.S d) (i0 + 1) xs x p Hlen Hp) as (s & Hs & Hcur & Hnext).
      replace (Z.to_nat (p - i0)) with (Datatypes.S (Z.to_nat (p - (i0 + 1)))) by lia.
      exists s. simpl. rewrite Hnext.
      replace (d + Datatypes.S (length xs))%nat with (Datatypes.S d + length xs)%nat by lia.
      auto.
Qed.

Lemma ctor_index_from_length (all_strides : list Z) (ends : list Z) :
  forall (starts : list Z) (d : nat) (xs : list Z),
    length starts = length ends ->
    length (ctor_index_from d all_strides starts ends xs) = length starts.
Proof.
  induction ends as [|e es IH]; intros [|s0 ss] d xs Hlen; try discriminate;
    [reflexivity|].
  simpl in Hlen. injection Hlen as Hlen. simpl.
  destruct (e =? matxDropDim); [|destruct xs]; simpl; now rewrite IH.
Qed.

(** Without indices the vector is the start offsets. *)
Lemma ctor_index_from_nil (all_strides : list Z) (ends : list Z) :
  forall (starts : list Z) (d : nat),
    length starts = length ends ->
    ctor_index_from d all_strides starts ends [] = starts.
Proof.
  induction ends as [|e es IH]; intros [|s0 ss] d Hlen; try discriminate;
    [reflexivity|].
  simpl in Hlen. injection Hlen as Hlen. simpl.
  destruct (e =? matxDropDim); now rewrite IH.
Qed.

(** The coordinate of a dropped dimension is its start offset, whatever
    the output indices are. *)
Lemma ctor_index_from_dropped (all_strides : list Z) (ends : list Z) :
  forall (starts : list Z) (d : nat) (xs : list Z) (j : nat) (s : Z),
    ends !! j = Some matxDropDim -> starts !! j = Some s ->
    ctor_index_from d all_strides starts ends xs !! j = Some s.
Proof.
  induction ends as [|e es IH]; intros [|s0 ss] d xs j s He Hs; try discriminate.
  destruct j as [|j]; simpl in He, Hs |- *.
  - injection He as ->. injection Hs as ->. now rewrite Z.eqb_refl.
  - destruct (e =? matxDropDim); [|destruct xs]; simpl; now apply IH.
Qed.

(** [operator()] on a node with the members that the constructor
    leaves: the index vector handed to the operand. *)
Lemma SliceOp_index_members (s : SliceOp V L) (starts ends strides indices : list Z) :
  length starts = op_Rank (op_ s) -> length ends = op_Rank (op_ s) ->
  length strides = op_Rank (op_ s) ->
  DIM s = length (retained ends) ->
  dims_ s = array_of (retained ends) ->
  starts_ s = array_of starts ->
  strides_ s = array_of strides ->
  length indices = DIM s ->
  SliceOp_index s indices = Ok (ctor_index strides starts ends indices).
Proof.
  intros Hls Hle Hlst Hdim Hdims Hstarts Hstrides Hli.
  unfold SliceOp_index. rewrite Hli, Nat.eqb_refl. simpl.
  set (rank := op_Rank (op_ s)) in *.
  pose proof (retained_length_le ends) as Hret.
  (* the first loop copies the start offsets *)
  rewrite (fill_loop_Ok "ind" rank
             (fun i => arr_get "starts_" (starts_ s) i) starts).
  2: assumption.
  2:{ unfold array_of. rewrite length_map, length_take, length_app, length_replicate. lia. }
  2:{ intros k v Hk. rewrite Hstarts. now apply arr_get_of. }
  rewrite drop_ge.
  2:{ unfold array_of. rewrite length_map, length_take, length_app, length_replicate. lia. }
  rewrite app_nil_r. simpl.
  (* the second loop adds index * stride at the retained positions *)
  destruct (for_loop_total
              (fun k ind => ind = array_of (ctor_index strides starts ends (take k indices)))
              (DIM s)
              (fun i ind =>
                 p <- arr_get "dims_" (dims_ s) i ;;
                 cur <- arr_get "ind" ind p ;;
                 x <- arr_get "inds" (array_of indices) i ;;
                 st <- arr_get "strides_" (strides_ s) i ;;
                 arr_set "ind" ind p (idx_add cur (idx_mul x st)))
              (array_of starts)) as (ind & -> & Hind).
  - simpl. unfold ctor_index. rewrite ctor_index_from_nil by lia. reflexivity.
  - intros k ind Hk ->.
    destruct (lookup_lt_is_Some_2 (retained ends) k) as [p Hp]; [lia|].
    destruct (lookup_lt_is_Some_2 indices k) as [x Hx]; [lia|].
    destruct (lookup_lt_is_Some_2 strides k) as [st Hst]; [lia|].
    pose proof (retained_from_bounds _ _ _ _ Hp) as [Hb _].
    destruct (ctor_index_from_snoc strides ends starts 0 0 (take k indices) x p)
      as (s0 & Hs0 & Hcur & Hnext); [lia | |].
    { rewrite length_take. replace (k `min` length indices)%nat with k by lia.
      exact Hp. }
    rewrite length_take in Hnext.
    replace (k `min` length indices)%nat with k in Hnext by lia.
    simpl in Hnext. rewrite Hst in Hnext. simpl in Hnext.
    rewrite Z.sub_0_r in Hs0, Hcur, Hnext.
    rewrite Hdims, (arr_get_of "dims_" _ k p Hp). simpl.
    rewrite (arr_get_lookup "ind" _ p s0); [| lia |].
    2:{ unfold array_of. rewrite list_lookup_fmap. unfold ctor_index.
        now rewrite Hcur. }
    simpl. rewrite (arr_get_of "inds" _ k x Hx). simpl.
    rewrite Hstrides, (arr_get_of "strides_" _ k st Hst). simpl.
    rewrite arr_set_in.
    2:{ split; [lia|]. apply lookup_lt_Some in Hcur.
        unfold array_of. rewrite length_map. unfold ctor_index. lia. }
    eexists. split; [reflexivity|].
    rewrite (take_S_r indices k x Hx). unfold ctor_index. rewrite Hnext.
    unfold array_of. now rewrite list_fmap_insert.
  - simpl. rewrite Hind. rewrite take_ge by lia. apply arr_values_of.
Qed.

(** Element access on a constructed slice: both overloads hand the operand
    the vector [ctor_index]; another number of indices is rejected. *)
Lemma SliceOp_access_spec (dim : nat) (op : Operand V L)
    (starts ends strides : list Z) (s : SliceOp V L) (indices : list Z) :
  SliceOp_ctor dim op starts ends strides = Ok s ->
  (length indices = dim ->
     SliceOp_index s indices = Ok (ctor_index strides starts ends indices)
     /\ SliceOp_get s indices = op_get op (ctor_index strides starts ends indices)
     /\ SliceOp_ref s indices = op_ref op (ctor_index strides starts ends indices))
  /\ (length indices <> dim -> SliceOp_index s indices = IllFormed "sizeof...(Is)==Rank()").
Proof.
  intros Hc.
  assert (Hlens : length starts = op_Rank op /\ length ends = op_Rank op
                  /\ length strides = op_Rank op).
  { unfold SliceOp_ctor in Hc. inv_bind Hc. inv_bind Hc. inv_bind Hc.
    apply static_assert_Ok_inv in E1.
    apply andb_prop in E1 as [E1 E3]. apply andb_prop in E1 as [E1 E2].
    apply Nat.eqb_eq in E1, E2, E3. auto. }
  destruct Hlens as (Hls & Hle & Hlst).
  destruct (SliceOp_ctor_Ok_inv dim op starts ends strides Hls Hle Hlst s Hc)
    as (HD & Hop & Hcount & _ & Hdims & Hst & Hstr).
  split.
  - intros Hli.
    assert (Hidx : SliceOp_index s indices = Ok (ctor_index strides starts ends indices)).
    { apply SliceOp_index_members; rewrite ?Hop; try assumption; congruence. }
    unfold SliceOp_get, SliceOp_ref. rewrite Hidx, Hop. auto.
  - intros Hli. unfold SliceOp_index. rewrite HD.
    destruct (Nat.eqb_spec (length indices) dim); [contradiction | reflexivity].
Qed.

End SliceAccess.

(** ** slice.h: the code and the rule *)

(** [ceil_quot a b] is the ceiling of a/b: the least integer whose product
    with b reaches a. *)
Lemma ceil_quot_spec (a b : Z) :
  0 < b -> b * (ceil_quot a b - 1) < a <= b * ceil_quot a b.
Proof.
  intros Hb. unfold ceil_quot.
  pose proof (Z.div_mod (- a) b ltac:(lia)) as Hdm.
  pose proof (Z.mod_pos_bound (- a) b Hb) as Hm.
  nia.
Qed.

Lemma ceil_quot_1 (a : Z) : ceil_quot a 1 = a.
Proof. unfold ceil_quot. rewrite Z.div_1_r. lia. Qed.

Lemma idx_wrap_in_range (z : Z) : in_index_t z -> idx_wrap z = z.
Proof.
  unfold in_index_t, idx_wrap. intros H.
  rewrite Z.mod_small by lia. lia.
Qed.

Lemma idx_wrap_congr (a b : Z) :
  a mod 2 ^ 64 = b mod 2 ^ 64 -> idx_wrap a = idx_wrap b.
Proof.
  unfold idx_wrap. intros H.
  rewrite <- (Z.add_mod_idemp_l a), <- (Z.add_mod_idemp_l b) by lia.
  now rewrite H.
Qed.

Lemma idx_wrap_mod (z : Z) : idx_wrap z mod 2 ^ 64 = z mod 2 ^ 64.
Proof.
  unfold idx_wrap.
  rewrite <- Zminus_mod_idemp_l, Z.mod_mod by lia.
  rewrite Zminus_mod_idemp_l. f_equal. lia.
Qed.

Lemma idx_wrap_add_l (a b : Z) : idx_wrap (idx_wrap a + b) = idx_wrap (a + b).
Proof.
  apply idx_wrap_congr.
  rewrite <- Z.add_mod_idemp_l, idx_wrap_mod, Z.add_mod_idemp_l by lia. reflexivity.
Qed.

Lemma idx_wrap_add_r (a b : Z) : idx_wrap (a + idx_wrap b) = idx_wrap (a + b).
Proof. rewrite (Z.add_comm a), idx_wrap_add_l. f_equal. lia. Qed.

Lemma idx_wrap_mul_l (a b : Z) : idx_wrap (idx_wrap a * b) = idx_wrap (a * b).
Proof.
  apply idx_wrap_congr.
  rewrite <- Z.mul_mod_idemp_l, idx_wrap_mod, Z.mul_mod_idemp_l by lia. reflexivity.
Qed.

Lemma idx_wrap_mul_r (a b : Z) : idx_wrap (a * idx_wrap b) = idx_wrap (a * b).
Proof. rewrite (Z.mul_comm a), idx_wrap_mul_l. f_equal. lia. Qed.

(** The index arithmetic of two nested slices is that of the composed
    slice, wrap-around included. *)
Lemma idx_compose (s1 st1 s2 st2 x : Z) :
  idx_add s1 (idx_mul (idx_add s2 (idx_mul x st2)) st1)
  = idx_add (idx_add s1 (idx_mul s2 st1)) (idx_mul x (idx_mul st1 st2)).
Proof.
  unfold idx_add, idx_mul.
  (* the nested slices *)
  rewrite (idx_wrap_add_r s2 (x * st2)).
  rewrite idx_wrap_mul_l, idx_wrap_add_r.
  (* the composed slice *)
  rewrite (idx_wrap_add_r s1 (s2 * st1)).
  rewrite idx_wrap_mul_r, idx_wrap_add_l, idx_wrap_add_r.
  f_equal. ring.
Qed.

Section SliceRuleAgreement.

Context {sentinels : Sentinels}.

Lemma retained_from_no_drop (ends : list Z) :
  Forall (fun e => e <> matxDropDim) ends ->
  forall (i : Z) (k : nat) (p : Z),
    retained_from i ends !! k = Some p -> p = i + Z.of_nat k.
Proof.
  induction 1 as [|e es He _ IH]; intros i k p Hp; simpl in Hp; [discriminate|].
  destruct (Z.eqb_spec e matxDropDim); [contradiction|].
  destruct k as [|k]; simpl in Hp.
  - injection Hp as <-. lia.
  - apply IH in Hp. lia.
Qed.

Lemma strides_aligned_no_drop (ends strides : list Z) :
  Forall (fun e => e <> matxDropDim) ends -> strides_aligned ends strides.
Proof.
  intros Hnd k p Hp. apply (retained_from_no_drop ends Hnd) in Hp.
  subst p. f_equal. lia.
Qed.

(** Where the stride table is aligned the index vector of the code is the
    index vector of the rule. *)
Lemma ctor_index_from_aligned (all_strides : list Z) (ends : list Z) :
  forall (starts : list Z) (d n0 : nat) (xs : list Z),
    length starts = length ends ->
    length all_strides = (n0 + length ends)%nat ->
    (forall (k : nat) (p : Z), retained_from (Z.of_nat n0) ends !! k = Some p ->
       all_strides !! (d + k)%nat = all_strides !! Z.to_nat p) ->
    ctor_index_from d all_strides starts ends xs
    = slice_spec_index starts ends (drop n0 all_strides) xs.
Proof.
  induction ends as [|e es IH]; intros [|s0 ss] d n0 xs Hls Hlen Hal;
    try discriminate; [reflexivity|].
  simpl in Hls, Hlen. injection Hls as Hls.
  destruct (lookup_lt_is_Some_2 all_strides n0) as [st Hst]; [lia|].
  rewrite (drop_S all_strides st n0 Hst). simpl in Hal |- *.
  replace (Z.of_nat n0 + 1) with (Z.of_nat (Datatypes.S n0)) in Hal by lia.
  destruct (e =? matxDropDim).
  - f_equal. apply IH; [assumption | lia | assumption].
  - pose proof (Hal 0%nat (Z.of_nat n0) eq_refl) as H0.
    rewrite Nat.add_0_r, Nat2Z.id, Hst in H0.
    assert (Hrec : forall xs', ctor_index_from (Datatypes.S d) all_strides ss es xs'
                               = slice_spec_index ss es (drop (Datatypes.S n0) all_strides) xs').
    { intros xs'. apply IH; [assumption | lia |].
      intros k p Hp. specialize (Hal (Datatypes.S k) p Hp).
      now replace (Datatypes.S d + k)%nat with (d + Datatypes.S k)%nat by lia. }
    destruct xs as [|x xs]; rewrite Hrec; [reflexivity|].
    now rewrite H0.
Qed.

Lemma ctor_index_aligned (strides starts ends xs : list Z) :
  length starts = length ends -> length strides = length ends ->
  strides_aligned ends strides ->
  ctor_index strides starts ends xs = slice_spec_index starts ends strides xs.
Proof.
  intros Hls Hlst Hal. unfold ctor_index.
  rewrite (ctor_index_from_aligned strides ends starts 0 0 xs); auto.
Qed.

(** Where the stride table is aligned and the differences fit in
    [index_t], the extents of the code are the extents of the rule. *)
Lemma ctor_sizes_from_aligned (all_strides : list Z) (ends : list Z) :
  forall (op_sizes starts : list Z) (d n0 : nat),
    length op_sizes = length ends -> length starts = length ends ->
    length all_strides = (n0 + length ends)%nat ->
    (forall (k : nat) (p : Z), retained_from (Z.of_nat n0) ends !! k = Some p ->
       all_strides !! (d + k)%nat = all_strides !! Z.to_nat p) ->
    (forall (j : nat) (n s e : Z),
       op_sizes !! j = Some n -> starts !! j = Some s -> ends !! j = Some e ->
       e <> matxDropDim -> in_index_t (resolve_end n e - s)) ->
    ctor_sizes_from d all_strides op_sizes starts ends
    = slice_spec_sizes op_sizes starts ends (drop n0 all_strides).
Proof.
  induction ends as [|e es IH]; intros [|n ns] [|s0 ss] d n0 Hln Hls Hlen Hal Hfit;
    try discriminate; [reflexivity|].
  simpl in Hln, Hls, Hlen. injection Hln as Hln. injection Hls as Hls.
  destruct (lookup_lt_is_Some_2 all_strides n0) as [st Hst]; [lia|].
  rewrite (drop_S all_strides st n0 Hst). simpl in Hal |- *.
  replace (Z.of_nat n0 + 1) with (Z.of_nat (Datatypes.S n0)) in Hal by lia.
  assert (Hfit' : forall (j : nat) (n s e : Z),
            ns !! j = Some n -> ss !! j = Some s -> es !! j = Some e ->
            e <> matxDropDim -> in_index_t (resolve_end n e - s)).
  { intros j n' s' e' H1 H2 H3. apply (Hfit (Datatypes.S j)); assumption. }
  destruct (Z.eqb_spec e matxDropDim) as [He|He].
  - apply IH; try assumption; lia.
  - pose proof (Hal 0%nat (Z.of_nat n0) eq_refl) as H0.
    rewrite Nat.add_0_r, Nat2Z.id, Hst in H0.
    rewrite H0. simpl. unfold idx_sub.
    rewrite idx_wrap_in_range by (apply (Hfit 0%nat n s0 e); auto).
    f_equal. apply IH; try assumption; [lia|].
    intros k p Hp. specialize (Hal (Datatypes.S k) p Hp).
    now replace (Datatypes.S d + k)%nat with (d + Datatypes.S k)%nat by lia.
Qed.

(** Two nested slices without dropped dimensions and the slice they
    compose to build the same index vector. *)
Lemma slice_spec_index_compose (xs : list Z) :
  forall (s1 e1 st1 s2 e2 st2 e : list Z),
    Forall (fun z => z <> matxDropDim) e1 ->
    Forall (fun z => z <> matxDropDim) e2 ->
    Forall (fun z => z <> matxDropDim) e ->
    length s1 = length xs -> length e1 = length xs -> length st1 = length xs ->
    length s2 = length xs -> length e2 = length xs -> length st2 = length xs ->
    length e = length xs ->
    slice_spec_index s1 e1 st1 (slice_spec_index s2 e2 st2 xs)
    = slice_spec_index (compose_starts s1 st1 s2) e (compose_strides st1 st2) xs.
Proof.
  induction xs as [|x xs IH];
    intros [|a1 s1] [|b1 e1] [|c1 st1] [|a2 s2] [|b2 e2] [|c2 st2] [|b e]
           He1 He2 He H1 H2 H3 H4 H5 H6 H7; try discriminate; [reflexivity|].
  inversion He1 as [|? ? Hb1 He1']; subst.
  inversion He2 as [|? ? Hb2 He2']; subst.
  inversion He as [|? ? Hb He']; subst.
  simpl in *.
  destruct (Z.eqb_spec b1 matxDropDim); [contradiction|].
  destruct (Z.eqb_spec b2 matxDropDim); [contradiction|].
  destruct (Z.eqb_spec b matxDropDim); [contradiction|].
  rewrite idx_compose. f_equal.
  apply IH; auto; congruence.
Qed.

End SliceRuleAgreement.

(** ** slice.h: what the constructor returns *)

Section SliceCtorTotal.

Context {V L : Type} {sentinels : Sentinels}.

Lemma retained_from_length_shift (es : list Z) (i j : Z) :
  length (retained_from i es) = length (retained_from j es).
Proof.
  revert i j. induction es as [|e es IH]; intros i j; simpl; [reflexivity|].
  destruct (e =? matxDropDim); simpl; now rewrite (IH (i + 1) (j + 1)).
Qed.

Lemma ctor_sizes_from_snoc (all_strides : list Z) (es : list Z) :
  forall (ns ss : list Z) (d : nat) (n s e : Z),
    length ns = length es -> length ss = length es ->
    ctor_sizes_from d all_strides (ns ++ [n]) (ss ++ [s]) (es ++ [e])
    = ctor_sizes_from d all_strides ns ss es
      ++ (if e =? matxDropDim then []
          else [ceil_quot (idx_sub (resolve_end n e) s)
                  (default 0 (all_strides !! (d + length (retained es))%nat))]).
Proof.
  induction es as [|e0 es IH]; intros [|n0 ns] [|s0 ss] d n s e Hn Hs;
    try discriminate.
  - simpl. rewrite Nat.add_0_r. destruct (e =? matxDropDim); reflexivity.
  - simpl in Hn, Hs. injection Hn as Hn. injection Hs as Hs.
    simpl. unfold retained. simpl.
    destruct (e0 =? matxDropDim).
    + rewrite (IH ns ss d n s e Hn Hs). unfold retained.
      now rewrite (retained_from_length_shift es (0 + 1) 0).
    + rewrite (IH ns ss (Datatypes.S d) n s e Hn Hs). unfold retained. simpl.
      rewrite (retained_from_length_shift es (0 + 1) 0).
      rewrite ?Nat.add_succ_r. reflexivity.
Qed.

Lemma retained_take_mono (es : list Z) (j k : nat) :
  (j <= k)%nat ->
  (length (retained (take j es)) <= length (retained (take k es)))%nat.
Proof.
  induction 1 as [|k Hjk IH]; [lia|].
  destruct (es !! k) as [e|] eqn:He.
  - rewrite (retained_take_S es k e He), length_app. lia.
  - apply lookup_ge_None in He.
    rewrite (take_ge es (Datatypes.S k)) by lia.
    rewrite (take_ge es k) in IH by lia. assumption.
Qed.

(** With more retained dimensions than cells there is a first one that
    finds the arrays full. *)
Lemma retained_first_excess (dim : nat) (es : list Z) :
  (dim < length (retained es))%nat ->
  exists (k : nat) (e : Z),
    es !! k = Some e /\ e <> matxDropDim /\ length (retained (take k es)) = dim.
Proof.
  induction es as [|e es IH] using rev_ind; [simpl; lia|].
  unfold retained in *. rewrite retained_from_snoc, length_app.
  intros Hex.
  destruct (Nat.lt_ge_cases dim (length (retained_from 0 es))) as [Hlt|Hge].
  - destruct (IH Hlt) as (k & e' & Hk & He' & Hc).
    exists k, e'. pose proof (lookup_lt_Some _ _ _ Hk) as Hkl.
    rewrite lookup_app_l by assumption.
    rewrite take_app_le by lia. auto.
  - destruct (Z.eqb_spec e matxDropDim) as [He|He]; simpl in Hex; [lia|].
    exists (length es), e.
    rewrite lookup_app_r by lia. rewrite Nat.sub_diag.
    rewrite take_app_length. repeat split; [assumption | lia].
Qed.

Section Ctor.

Variables (dim : nat) (op : Operand V L) (starts ends strides op_sizes : list Z).

Let rank : nat := op_Rank op.

Hypothesis starts_len : length starts = rank.
Hypothesis ends_len : length ends = rank.
Hypothesis strides_len : length strides = rank.
Hypothesis op_sizes_len : length op_sizes = rank.

(** The operand reports the extents [op_sizes]. *)
Hypothesis op_sizes_ok :
  forall (i : nat) (n : Z), op_sizes !! i = Some n -> op_Size op (Z.of_nat i) = Ok n.

(** The conversions to [double] are exact and no stride is zero. *)
Hypothesis strides_ok :
  forall (i : nat) (st : Z), strides !! i = Some st ->
    st <> 0 /\ double_exact st = true.
Hypothesis sizes_exact :
  forall (i : nat) (n s e : Z),
    op_sizes !! i = Some n -> starts !! i = Some s -> ends !! i = Some e ->
    e <> matxDropDim -> double_exact (idx_sub (resolve_end n e) s) = true.

Let body := SliceOp_ctor_body op (array_of starts) (array_of ends) (array_of strides).
Let init := mkCtorState 0 (array_new dim) (array_new dim) (array_new rank) (array_new rank).

(** The state after [k] iterations, while the retained dimensions fit. *)
Let state_after (k : nat) : ctor_state :=
  let c := length (retained (take k ends)) in
  mkCtorState (Z.of_nat c)
    (array_of (ctor_sizes strides (take k op_sizes) (take k starts) (take k ends))
     ++ replicate (dim - c) None)
    (array_of (retained (take k ends)) ++ replicate (dim - c) None)
    (array_of (take k starts) ++ replicate (rank - k) None)
    (array_of (take k strides) ++ replicate (rank - k) None).

Lemma ctor_sizes_take_length (k : nat) :
  (k <= rank)%nat ->
  length (ctor_sizes strides (take k op_sizes) (take k starts) (take k ends))
  = length (retained (take k ends)).
Proof.
  induction k as [|k IH]; intros Hk; [reflexivity|].
  destruct (lookup_lt_is_Some_2 op_sizes k) as [n Hn]; [lia|].
  destruct (lookup_lt_is_Some_2 starts k) as [s Hs]; [lia|].
  destruct (lookup_lt_is_Some_2 ends k) as [e He]; [lia|].
  rewrite (take_S_r _ _ _ Hn), (take_S_r _ _ _ Hs), (take_S_r _ _ _ He).
  unfold ctor_sizes, retained in *.
  rewrite ctor_sizes_from_snoc, retained_from_snoc by (rewrite !length_take; lia).
  rewrite !length_app, IH by lia.
  destruct (e =? matxDropDim); reflexivity.
Qed.

(** One iteration, when the dimension is dropped or a cell is free. *)
Lemma ctor_body_step (k : nat) :
  (k < rank)%nat ->
  (length (retained (take (Datatypes.S k) ends)) <= dim)%nat ->
  body (Z.of_nat k) (state_after k) = Ok (state_after (Datatypes.S k)).
Proof.
  intros Hk Hfit.
  destruct (lookup_lt_is_Some_2 op_sizes k) as [n Hn]; [lia|].
  destruct (lookup_lt_is_Some_2 starts k) as [s Hs]; [lia|].
  destruct (lookup_lt_is_Some_2 ends k) as [e He]; [lia|].
  destruct (lookup_lt_is_Some_2 strides k) as [st Hst]; [lia|].
  pose proof (ctor_sizes_take_length k ltac:(lia)) as Hszlen.
  pose proof (retained_length_le (take k ends)) as Hck.
  rewrite length_take in Hck.
  unfold state_after.
  rewrite (retained_take_S ends k e He) in Hfit |- *.
  rewrite (take_S_r _ _ _ Hn), (take_S_r starts _ _ Hs), (take_S_r ends _ _ He),
          (take_S_r strides _ _ Hst).
  unfold ctor_sizes.
  rewrite ctor_sizes_from_snoc by (rewrite !length_take; lia).
  fold (ctor_sizes strides (take k op_sizes) (take k starts) (take k ends)).
  set (c := length (retained (take k ends))) in *.
  set (szs := ctor_sizes strides (take k op_sizes) (take k starts) (take k ends)) in *.
  unfold body, SliceOp_ctor_body. cbn [cs_d cs_sizes cs_dims cs_starts cs_strides].
  rewrite (arr_get_of "starts" _ k s Hs). cbn [obind].
  rewrite (arr_get_of "ends" _ k e He). cbn [obind].
  rewrite arr_set_in by (rewrite array_fill_length, length_take; lia). cbn [obind].
  rewrite (arr_get_of "strides" _ k st Hst). cbn [obind].
  rewrite arr_set_in by (rewrite array_fill_length, length_take; lia). cbn [obind].
  rewrite Nat2Z.id.
  assert (Hfill : forall (l : list Z) (v : Z), length l = rank ->
            <[k := Some v]> (array_of (take k l) ++ replicate (rank - k) None)
            = array_of (take k l ++ [v]) ++ replicate (rank - Datatypes.S k) None).
  { intros l v Hl. replace (rank - k)%nat with (Datatypes.S (rank - Datatypes.S k)) by lia.
    rewrite <- array_fill_next. f_equal. rewrite length_take. lia. }
  rewrite !Hfill by assumption.
  destruct (Z.eqb_spec e matxDropDim) as [Hdrop|Hkeep].
  - rewrite !app_nil_r. reflexivity.
  - rewrite length_app in Hfit |- *. simpl in Hfit |- *.
    rewrite arr_set_in by (rewrite array_fill_length; fold c; lia). cbn [obind].
    assert (Hsz : (if e =? matxEnd
                   then n0 <- op_Size op (Z.of_nat k) ;; Ok (idx_sub n0 s)
                   else Ok (idx_sub e s))
                  = Ok (idx_sub (resolve_end n e) s)).
    { unfold resolve_end. destruct (e =? matxEnd); [|reflexivity].
      now rewrite (op_sizes_ok k n Hn). }
    rewrite Hsz. cbn [obind].
    rewrite arr_set_in by (rewrite array_fill_length, Hszlen; lia). cbn [obind].
    rewrite Nat2Z.id.
    replace (dim - c)%nat with (Datatypes.S (dim - (c + 1))) by lia.
    rewrite (arr_get_lookup "sizes_" _ (Z.of_nat c) (idx_sub (resolve_end n e) s)); [|lia|].
    2:{ rewrite Nat2Z.id. apply list_lookup_insert_eq.
        rewrite array_fill_length, Hszlen. lia. }
    cbn [obind].
    destruct (lookup_lt_is_Some_2 strides c) as [stc Hstc]; [lia|].
    rewrite (arr_get_lookup "strides_" _ (Z.of_nat c) stc); [|lia|].
    2:{ rewrite Nat2Z.id, lookup_app_l
          by (unfold array_of; rewrite length_map, length_app, length_take; simpl; lia).
        unfold array_of. rewrite list_lookup_fmap.
        rewrite <- (take_S_r strides k st Hst).
        rewrite lookup_take_lt by lia. now rewrite Hstc. }
    cbn [obind].
    destruct (strides_ok c stc Hstc) as [Hnz Hex].
    unfold ceil_double.
    destruct (Z.eqb_spec stc 0); [contradiction|].
    rewrite (sizes_exact k n s e Hn Hs He Hkeep), Hex. cbn [andb obind].
    rewrite arr_set_in
      by (rewrite length_insert, array_fill_length, Hszlen; lia).
    cbn [obind]. rewrite Nat2Z.id.
    rewrite list_insert_insert_eq.
    rewrite (array_fill_at szs c _ _ Hszlen).
    rewrite (array_fill_at (retained (take k ends)) c _ _ eq_refl).
    rewrite Hstc. simpl default.
    subst c. do 2 f_equal. lia.
Qed.

Lemma ctor_loop_prefix (k : nat) :
  (k <= rank)%nat -> (length (retained (take k ends)) <= dim)%nat ->
  for_loop k body init = Ok (state_after k).
Proof.
  induction k as [|k IH]; intros Hk Hfit.
  - simpl. unfold init, state_after, array_new. simpl.
    now rewrite !Nat.sub_0_r.
  - simpl. rewrite IH; [| lia |].
    + simpl. apply ctor_body_step; [lia | assumption].
    + pose proof (retained_take_mono ends k (Datatypes.S k)). lia.
Qed.

(** The constructor, case by case on the number of retained dimensions:
    too few fail the check, the declared number builds the node, too many
    run off [dims_] before the check. *)
Lemma SliceOp_ctor_cases :
  (0 < rank)%nat -> (dim <= rank)%nat ->
  SliceOp_ctor dim op starts ends strides
  = match Nat.compare (length (retained ends)) dim with
    | Lt => Throw matxInvalidDim
              "SliceOp: Number of dimensions without matxDropDim must equal new rank."
    | Eq => Ok (mkSliceOp dim op
                  (array_of (ctor_sizes strides op_sizes starts ends))
                  (array_of (retained ends))
                  (array_of starts) (array_of strides))
    | Gt => Undefined (ArrayIndex "dims_" (Z.of_nat dim) dim)
    end.
Proof.
  intros Hr Hd. unfold SliceOp_ctor. fold rank.
  destruct (Nat.ltb_spec 0 rank) as [_|]; [|lia].
  destruct (Nat.leb_spec dim rank) as [_|]; [|lia].
  rewrite starts_len, ends_len, strides_len, Nat.eqb_refl.
  cbn [static_assert andb obind]. fold body. fold init.
  destruct (Nat.compare_spec (length (retained ends)) dim) as [Heq|Hlt|Hgt].
  - rewrite (ctor_loop_prefix rank) by (rewrite ?take_ge; lia).
    cbn [obind]. unfold state_after. rewrite !take_ge by lia.
    cbn [cs_d cs_sizes cs_dims cs_starts cs_strides].
    rewrite Heq, Z.eqb_refl, !Nat.sub_diag. simpl. now rewrite !app_nil_r.
  - rewrite (ctor_loop_prefix rank) by (rewrite ?take_ge; lia).
    cbn [obind]. unfold state_after. rewrite !take_ge by lia.
    cbn [cs_d].
    destruct (Z.eqb_spec (Z.of_nat (length (retained ends))) (Z.of_nat dim)); [lia|].
    reflexivity.
  - destruct (retained_first_excess dim ends Hgt) as (k & e & He & Hkeep & Hc).
    pose proof (lookup_lt_Some _ _ _ He) as Hk.
    rewrite (for_loop_fails_later rank k body init (state_after k)
               (Undefined (ArrayIndex "dims_" (Z.of_nat dim) dim)));
      [reflexivity | lia | apply ctor_loop_prefix; lia | | reflexivity].
    destruct (lookup_lt_is_Some_2 starts k) as [s Hs]; [lia|].
    destruct (lookup_lt_is_Some_2 strides k) as [st Hst]; [lia|].
    unfold body, SliceOp_ctor_body, state_after.
    cbn [cs_d cs_sizes cs_dims cs_starts cs_strides].
    rewrite (arr_get_of "starts" _ k s Hs). cbn [obind].
    rewrite (arr_get_of "ends" _ k e He). cbn [obind].
    rewrite arr_set_in by (rewrite array_fill_length, length_take; lia). cbn [obind].
    rewrite (arr_get_of "strides" _ k st Hst). cbn [obind].
    rewrite arr_set_in by (rewrite array_fill_length, length_take; lia). cbn [obind].
    destruct (Z.eqb_spec e matxDropDim); [contradiction|].
    rewrite Hc, Nat.sub_diag. simpl replicate. rewrite app_nil_r.
    rewrite arr_set_beyond.
    + unfold array_of. now rewrite length_map, Hc.
    + unfold array_of. rewrite length_map, Hc. lia.
Qed.

End Ctor.

End SliceCtorTotal.

(** ** slice.h: where the code follows the rule *)

Section SliceLaws.

Context {V L : Type} {sentinels : Sentinels}.

Lemma SliceOp_ctor_lengths (dim : nat) (op : Operand V L)
    (starts ends strides : list Z) (s : SliceOp V L) :
  SliceOp_ctor dim op starts ends strides = Ok s ->
  length starts = op_Rank op /\ length ends = op_Rank op
  /\ length strides = op_Rank op.
Proof.
  unfold SliceOp_ctor. intros Hc. inv_bind Hc. inv_bind Hc. inv_bind Hc.
  apply static_assert_Ok_inv in E1.
  apply andb_prop in E1 as [E1 E3]. apply andb_prop in E1 as [E1 E2].
  apply Nat.eqb_eq in E1, E2, E3. auto.
Qed.

(** Where the stride table is aligned (in particular when no dimension is
    dropped) element access follows the rule: every coordinate starts at
    its start offset and a retained dimension adds its output index times
    its stride. *)
Lemma slice_access_where_aligned (dim : nat) (op : Operand V L)
    (starts ends strides : list Z) (s : SliceOp V L) (indices : list Z) :
  SliceOp_ctor dim op starts ends strides = Ok s ->
  strides_aligned ends strides ->
  length indices = dim ->
  SliceOp_get s indices = op_get op (slice_spec_index starts ends strides indices)
  /\ SliceOp_ref s indices = op_ref op (slice_spec_index starts ends strides indices).
Proof.
  intros Hc Hal Hli.
  destruct (SliceOp_ctor_lengths _ _ _ _ _ _ Hc) as (Hls & Hle & Hlst).
  destruct (proj1 (SliceOp_access_spec dim op starts ends strides s indices Hc) Hli)
    as (_ & Hget & Href).
  rewrite Hget, Href, ctor_index_aligned by (assumption || congruence). auto.
Qed.

(** A dropped dimension contributes its start offset to every access, and
    each dropped dimension lowers the rank by one. *)
Lemma slice_dropped_coordinate (dim : nat) (op : Operand V L)
    (starts ends strides : list Z) (s : SliceOp V L)
    (indices : list Z) (j : nat) (st : Z) :
  SliceOp_ctor dim op starts ends strides = Ok s ->
  length indices = dim ->
  ends !! j = Some matxDropDim -> starts !! j = Some st ->
  exists ind, SliceOp_index s indices = Ok ind /\ ind !! j = Some st.
Proof.
  intros Hc Hli He Hs.
  destruct (proj1 (SliceOp_access_spec dim op starts ends strides s indices Hc) Hli)
    as (Hidx & _ & _).
  eexists. split; [exact Hidx|]. unfold ctor_index.
  now apply ctor_index_from_dropped.
Qed.

Lemma retained_length_dropped (ends : list Z) :
  (length (retained ends)
   + length (filter (fun e => e = matxDropDim) ends))%nat = length ends.
Proof.
  unfold retained. generalize 0.
  induction ends as [|e es IH]; intros i; [reflexivity|].
  simpl. rewrite filter_cons.
  destruct (Z.eqb_spec e matxDropDim) as [He|He];
    destruct (decide (e = matxDropDim)); try contradiction;
    simpl; rewrite <- (IH (i + 1)); lia.
Qed.

Lemma slice_rank_dropped (dim : nat) (op : Operand V L)
    (starts ends strides : list Z) (s : SliceOp V L) :
  SliceOp_ctor dim op starts ends strides = Ok s ->
  (SliceOp_Rank s + length (filter (fun e => e = matxDropDim) ends))%nat = op_Rank op.
Proof.
  intros Hc.
  destruct (SliceOp_ctor_lengths _ _ _ _ _ _ Hc) as (Hls & Hle & Hlst).
  destruct (SliceOp_ctor_Ok_inv dim op starts ends strides Hls Hle Hlst s Hc)
    as (HD & _ & Hcount & _).
  unfold SliceOp_Rank. rewrite HD, <- Hcount, <- Hle.
  apply retained_length_dropped.
Qed.

(** Two nested slices that drop no dimension read what the composed slice
    reads (start s1 + s2*st1, stride st1*st2), at every index and with the
    wrap-around of [index_t]. *)
Lemma slice_compose_no_drop (T : Operand V L)
    (s1 e1 st1 s2 e2 st2 e : list Z) (inner outer single : SliceOp V L)
    (indices : list Z) :
  Forall (fun z => z <> matxDropDim) e1 ->
  Forall (fun z => z <> matxDropDim) e2 ->
  Forall (fun z => z <> matxDropDim) e ->
  slice T s1 e1 st1 = Ok inner ->
  slice (SliceOp_operand inner) s2 e2 st2 = Ok outer ->
  slice T (compose_starts s1 st1 s2) e (compose_strides st1 st2) = Ok single ->
  length indices = op_Rank T ->
  SliceOp_get outer indices = SliceOp_get single indices
  /\ SliceOp_ref outer indices = SliceOp_ref single indices.
Proof.
  intros He1 He2 He Hin Hout Hsingle Hli. unfold slice in *.
  destruct (SliceOp_ctor_lengths _ _ _ _ _ _ Hin) as (Hls1 & Hle1 & Hlst1).
  destruct (SliceOp_ctor_lengths _ _ _ _ _ _ Hout) as (Hls2 & Hle2 & Hlst2).
  destruct (SliceOp_ctor_lengths _ _ _ _ _ _ Hsingle) as (Hls & Hle & Hlst).
  destruct (SliceOp_ctor_Ok_inv _ _ _ _ _ Hls1 Hle1 Hlst1 _ Hin) as (HD1 & _).
  assert (Hrank : op_Rank (SliceOp_operand inner) = op_Rank T) by exact HD1.
  rewrite Hrank in *.
  destruct (slice_access_where_aligned _ _ _ _ _ _ indices Hout
              (strides_aligned_no_drop _ _ He2) Hli) as [Hg2 Hr2].
  destruct (slice_access_where_aligned _ _ _ _ _ _ indices Hsingle
              (strides_aligned_no_drop _ _ He) Hli) as [Hg Hr].
  assert (Hmid : length (slice_spec_index s2 e2 st2 indices) = op_Rank T).
  { rewrite <- (ctor_index_aligned st2 s2 e2 indices)
      by (try congruence; now apply strides_aligned_no_drop).
    unfold ctor_index. rewrite ctor_index_from_length; congruence. }
  destruct (slice_access_where_aligned _ _ _ _ _ _
              (slice_spec_index s2 e2 st2 indices) Hin
              (strides_aligned_no_drop _ _ He1) Hmid) as [Hg1 Hr1].
  rewrite Hg2, Hr2, Hg, Hr. simpl. rewrite Hg1, Hr1.
  rewrite <- (slice_spec_index_compose indices s1 e1 st1 s2 e2 st2 e);
    auto; congruence.
Qed.

(** The stride table is read at the output position: a slice that drops
    dimension 0 of a rank-2 operand steps through dimension 1 with the
    stride given for dimension 0. *)
Lemma slice_drop_first_steps_with_first_stride (T : Operand V L)
    (s0 s1 e st0 st1 x : Z) (s : SliceOp V L) :
  e <> matxDropDim ->
  slice_N 1 T [s0; s1] [matxDropDim; e] [st0; st1] = Ok s ->
  SliceOp_get s [x] = op_get T [s0; idx_add s1 (idx_mul x st0)]
  /\ slice_spec_index [s0; s1] [matxDropDim; e] [st0; st1] [x]
     = [s0; idx_add s1 (idx_mul x st1)].
Proof.
  intros He Hc. unfold slice_N in Hc.
  destruct (proj1 (SliceOp_access_spec 1 T [s0; s1] [matxDropDim; e] [st0; st1]
                     s [x] Hc) eq_refl) as (_ & Hget & _).
  rewrite Hget. unfold ctor_index. simpl. rewrite Z.eqb_refl.
  destruct (Z.eqb_spec e matxDropDim); [contradiction|]. auto.
Qed.

End SliceLaws.

(** The extents of a constructed slice, where the stride table is aligned
    and the numbers fit: ceil((resolved_end - start) / stride) per
    retained dimension. *)
Lemma slice_sizes_where_aligned {V L : Type} {sentinels : Sentinels}
    (op : Operand V L) (starts ends strides op_sizes : list Z) :
  length starts = op_Rank op -> length ends = op_Rank op ->
  length strides = op_Rank op -> length op_sizes = op_Rank op ->
  (0 < op_Rank op)%nat ->
  (forall (i : nat) (n : Z), op_sizes !! i = Some n -> op_Size op (Z.of_nat i) = Ok n) ->
  (forall (i : nat) (st : Z), strides !! i = Some st ->
     st <> 0 /\ double_exact st = true) ->
  (forall (i : nat) (n s e : Z),
     op_sizes !! i = Some n -> starts !! i = Some s -> ends !! i = Some e ->
     e <> matxDropDim -> Z.abs (resolve_end n e - s) <= 2 ^ 53) ->
  strides_aligned ends strides ->
  exists s, SliceOp_ctor (length (retained ends)) op starts ends strides = Ok s
            /\ sizes_ s = array_of (slice_spec_sizes op_sizes starts ends strides)
            /\ forall (d : nat) (v : Z),
                 slice_spec_sizes op_sizes starts ends strides !! d = Some v ->
                 SliceOp_Size s (Z.of_nat d) = Ok v.
Proof.
  intros Hls Hle Hlst Hlo Hr Hsz Hstr Hfit Hal.
  assert (Hin : forall (i : nat) (n s e : Z),
            op_sizes !! i = Some n -> starts !! i = Some s -> ends !! i = Some e ->
            e <> matxDropDim -> in_index_t (resolve_end n e - s)).
  { intros i n s e H1 H2 H3 H4. specialize (Hfit i n s e H1 H2 H3 H4).
    unfold in_index_t. lia. }
  rewrite (SliceOp_ctor_cases (length (retained ends)) op starts ends strides op_sizes);
    try assumption.
  - rewrite Nat.compare_refl. eexists. split; [reflexivity|]. simpl.
    assert (Heq : ctor_sizes strides op_sizes starts ends
                  = slice_spec_sizes op_sizes starts ends strides).
    { unfold ctor_sizes.
      rewrite (ctor_sizes_from_aligned strides ends op_sizes starts 0 0);
        try congruence; auto. simpl. congruence. }
    rewrite Heq. split; [reflexivity|].
    intros d v Hd. unfold SliceOp_Size. simpl. now apply arr_get_of.
  - intros i n s e H1 H2 H3 H4. unfold idx_sub.
    rewrite idx_wrap_in_range by (eapply Hin; eauto).
    unfold double_exact. apply Z.leb_le. eapply Hfit; eauto.
  - pose proof (retained_length_le ends). lia.
Qed.

(** ** slice.h at concrete slices *)

Section SliceExamples.

#[local] Existing Instance example_sentinels.

(** C3. The slice of a rank-2 operand that drops dimension 0 (start 2)
    and keeps dimension 1 (start 0, stride 2) has rank 1 = 2 - 1 and
    reads every element at the fixed coordinate 2 in dimension 0.  By the
    rule its output index 3 is the operand's index [2; 0 + 3 * 2]; the
    node reads [2; 3]: it multiplies the output index by [strides_[0]],
    the stride of the dropped dimension, where the retained dimension's
    stride is [strides_[1]]. *)
Theorem slice_drop_reads_with_stride_of_output_position :
  (s <- slice_N 1 (index_leaf [3; 8]) [2; 0] [matxDropDim; matxEnd] [1; 2] ;;
   Ok (SliceOp_Rank s, dims_ s, SliceOp_get s [3], SliceOp_ref s [3]))
    = Ok (1%nat, [Some 1], Ok [2; 3], Ok [2; 3])
  /\ slice_spec_index [2; 0] [matxDropDim; matxEnd] [1; 2] [3] = [2; 6].
Proof. split; vm_compute; reflexivity. Qed.

(** C4. For the same slice the rule gives the retained dimension the
    extent ceil((8 - 0) / 2) = 4; the node reports 8, the quotient by
    [strides_[0]] = 1. *)
Theorem slice_drop_size_with_stride_of_output_position :
  (s <- slice_N 1 (index_leaf [3; 8]) [2; 0] [matxDropDim; matxEnd] [1; 2] ;;
   SliceOp_Size s 0) = Ok 8
  /\ slice_spec_sizes [3; 8] [2; 0] [matxDropDim; matxEnd] [1; 2] = [4].
Proof. split; vm_compute; reflexivity. Qed.

(** C2. An inner slice with the strides [2; 3] under an outer slice that
    drops dimension 0: output index 1 of the nested slices reads the
    operand at [0; 3]; the single slice with the composed start, end and
    stride reads it at [0; 2]. *)
Theorem slice_compose_differs_when_outer_drops :
  (inner <- slice (index_leaf [8; 12]) [0; 0] [matxEnd; matxEnd] [2; 3] ;;
   outer <- slice_N 1 (SliceOp_operand inner) [0; 0] [matxDropDim; matxEnd] [1; 1] ;;
   SliceOp_get outer [1]) = Ok [0; 3]
  /\ (single <- slice_N 1 (index_leaf [8; 12])
                  (compose_starts [0; 0] [2; 3] [0; 0])
                  (compose_ends [0; 0] [2; 3] [matxEnd; matxEnd] [matxDropDim; matxEnd])
                  (compose_strides [2; 3] [1; 1]) ;;
      SliceOp_get single [1]) = Ok [0; 2]
  /\ compose_starts [0; 0] [2; 3] [0; 0] = [0; 0]
  /\ compose_strides [2; 3] [1; 1] = [2; 3]
  /\ compose_ends [0; 0] [2; 3] [matxEnd; matxEnd] [matxDropDim; matxEnd]
     = [matxDropDim; matxEnd].
Proof. repeat split; vm_compute; reflexivity. Qed.

(** C8. A slice of declared rank 1 that retains both dimensions of a
    rank-2 operand: the constructor writes [dims_[1]], outside the
    one-cell array, before the check of the count is reached.  With
    fewer retained dimensions than the declared rank the check fails
    with its diagnostic. *)
Theorem slice_too_many_retained_overruns_dims :
  retained [matxEnd; matxEnd] = [0; 1]
  /\ is_Ok (slice_N 1 (index_leaf [3; 8]) [0; 0] [matxEnd; matxEnd] [1; 1]) = false
  /\ (s <- slice_N 1 (index_leaf [3; 8]) [0; 0] [matxEnd; matxEnd] [1; 1] ;; Ok tt)
     = Undefined (ArrayIndex "dims_" 1 1)
  /\ (s <- slice_N 2 (index_leaf [3; 8]) [0; 0] [matxDropDim; matxEnd] [1; 1] ;; Ok tt)
     = Throw matxInvalidDim
         "SliceOp: Number of dimensions without matxDropDim must equal new rank.".
Proof. repeat split; vm_compute; reflexivity. Qed.

(** A slice with unit strides and no dropped dimension: the extents are
    end - start and output index i reads the operand at start + i. *)
Example slice_unit_stride :
  (s <- slice_unit (index_leaf [5; 9]) [1; 2] [4; matxEnd] ;;
   n0 <- SliceOp_Size s 0 ;; n1 <- SliceOp_Size s 1 ;;
   e <- SliceOp_get s [2; 3] ;; Ok (n0, n1, e)) = Ok (3, 7, [3; 5]).
Proof. vm_compute. reflexivity. Qed.

(** The general lemmas at concrete slices: the nested slices [1::2] of
    [2::3] against the composed slice [2 + 1*3 :: 3*2], and the three cases
    of the constructor. *)
Example slice_compose_no_drop_at_an_index :
  (inner <- slice (index_leaf [40]) [2] [matxEnd] [3] ;;
   outer <- slice (SliceOp_operand inner) [1] [matxEnd] [2] ;;
   SliceOp_get outer [4])
  = (single <- slice (index_leaf [40]) (compose_starts [2] [3] [1]) [matxEnd]
                 (compose_strides [3] [2]) ;;
     SliceOp_get single [4])
  /\ (inner <- slice (index_leaf [40]) [2] [matxEnd] [3] ;;
      outer <- slice (SliceOp_operand inner) [1] [matxEnd] [2] ;;
      SliceOp_get outer [4]) = Ok [29].
Proof.
  split; [|vm_compute; reflexivity].
  assert (H1 : is_Ok (inner <- slice (index_leaf [40]) [2] [matxEnd] [3] ;;
                      slice (SliceOp_operand inner) [1] [matxEnd] [2]) = true)
    by (vm_compute; reflexivity).
  assert (H2 : is_Ok (slice (index_leaf [40]) (compose_starts [2] [3] [1]) [matxEnd]
                        (compose_strides [3] [2])) = true)
    by (vm_compute; reflexivity).
  destruct (slice (index_leaf [40]) [2] [matxEnd] [3]) as [inner| | | |] eqn:Hin;
    try discriminate H1.
  cbn [obind] in H1 |- *.
  destruct (slice (SliceOp_operand inner) [1] [matxEnd] [2]) as [outer| | | |] eqn:Hout;
    try discriminate H1.
  destruct (slice (index_leaf [40]) (compose_starts [2] [3] [1]) [matxEnd]
              (compose_strides [3] [2])) as [single| | | |] eqn:Hsingle;
    try discriminate H2.
  cbn [obind].
  assert (Hnd : Forall (fun z => z <> matxDropDim) [matxEnd])
    by (constructor; [discriminate | constructor]).
  apply (proj1 (slice_compose_no_drop (index_leaf [40]) [2] [matxEnd] [3]
                  [1] [matxEnd] [2] [matxEnd] inner outer single [4]
                  Hnd Hnd Hnd Hin Hout Hsingle eq_refl)).
Qed.

Example slice_sizes_follow_rule_without_drop :
  exists s,
    slice (index_leaf [5; 9]) [1; 2] [4; matxEnd] [1; 2] = Ok s
    /\ SliceOp_Size s 0 = Ok 3 /\ SliceOp_Size s 1 = Ok 4.
Proof.
  destruct (slice_sizes_where_aligned (index_leaf [5; 9]) [1; 2] [4; matxEnd] [1; 2] [5; 9])
    as (s & Hs & _ & Hsz); try reflexivity.
  - simpl. lia.
  - intros [|[|i]] n Hn; simpl in Hn; try discriminate; injection Hn as <-; reflexivity.
  - intros [|[|i]] st Hst; simpl in Hst; try discriminate; injection Hst as <-;
      split; (discriminate || reflexivity).
  - intros [|[|i]] n s e Hn Hs He Hk; simpl in Hn, Hs, He; try discriminate;
      injection Hn as <-; injection Hs as <-; injection He as <-; vm_compute;
      discriminate.
  - apply strides_aligned_no_drop. repeat constructor; discriminate.
  - exists s. split; [exact Hs|]. split.
    + apply (Hsz 0%nat). reflexivity.
    + apply (Hsz 1%nat). reflexivity.
Qed.

Example slice_ctor_three_cases :
  exists s1,
    slice_N 1 (index_leaf [3; 8]) [2; 0] [matxDropDim; 7] [1; 1] = Ok s1
    /\ sizes_ s1 = [Some 7] /\ dims_ s1 = [Some 1]
    /\ is_Ok (slice_N 2 (index_leaf [3; 8]) [2; 0] [matxDropDim; 7] [1; 1]) = false
    /\ is_Ok (slice_N 1 (index_leaf [3; 8]) [2; 0] [matxEnd; 7] [1; 1]) = false.
Proof.
  assert (Hcases := fun dim =>
    SliceOp_ctor_cases dim (index_leaf [3; 8]) [2; 0] [matxDropDim; 7] [1; 1] [3; 8]
      eq_refl eq_refl eq_refl eq_refl).
  eexists. unfold slice_N. split; [|split; [|split; [|split]]].
  - rewrite Hcases; [reflexivity | | | | simpl; lia | simpl; lia].
    + intros [|[|i]] n Hn; simpl in Hn; try discriminate; injection Hn as <-; reflexivity.
    + intros [|[|i]] st Hst; simpl in Hst; try discriminate; injection Hst as <-;
        split; (discriminate || reflexivity).
    + intros [|[|i]] n s e Hn Hs He Hk; simpl in Hn, Hs, He; try discriminate;
        injection Hn as <-; injection Hs as <-; injection He as <-;
        [now destruct Hk | reflexivity].
  - reflexivity.
  - reflexivity.
  - vm_compute. reflexivity.
  - vm_compute. reflexivity.
Qed.

End SliceExamples.

(** * Further properties of the transform nodes *)

(** ** Exec *)

(** X1. A call of [Exec] that returns has made exactly one call into a
    numeric kernel and nothing else: no allocation, no print.  The kernel
    gets at most two destinations and the node's operands. *)
Theorem Exec_is_one_kernel_call (n : Op) (out : list tensor_t) (ex : Executor)
    (evs : list event) :
  Exec n out ex = Ok evs ->
  exists name dests srcs,
    evs = [Kernel name dests srcs]
    /\ (1 <= length dests <= 2)%nat
    /\ count_events is_Alloc evs = 0%nat
    /\ count_events is_Printf evs = 0%nat.
Proof.
  intros H.
  destruct n as [t|dims op|a od tmp|a od tmp|a tmp|a b al be perm od tmp|a|a tmp];
    simpl in H; try discriminate; repeat inv_bind H;
    try (destruct perm); injection H as <-;
    do 3 eexists; (split; [reflexivity|]); simpl; repeat split; lia.
Qed.

Lemma Exec_is_one_kernel_call_witness :
  exists name dests srcs,
    [Kernel "trace_impl" [Tensor host_scalar_tmp] [tensor_of [3; 3] 0]]
    = [Kernel name dests srcs]
    /\ (1 <= length dests <= 2)%nat
    /\ count_events is_Alloc
         [Kernel "trace_impl" [Tensor host_scalar_tmp] [tensor_of [3; 3] 0]] = 0%nat
    /\ count_events is_Printf
         [Kernel "trace_impl" [Tensor host_scalar_tmp] [tensor_of [3; 3] 0]] = 0%nat.
Proof.
  apply (Exec_is_one_kernel_call (trace (tensor_of [3; 3] 0)) [host_scalar_tmp]
           HostExecutor).
  reflexivity.
Defined.

(** X2. Under the host executor [Exec] is accepted by the cumulative-sum
    and trace nodes only, and by these for every nonempty destination
    tuple; the covariance, matrix-multiply and QR nodes are rejected
    whatever the destination is. *)
Theorem Exec_host_only_cumsum_and_trace (n : Op) (out : list tensor_t) :
  is_Ok (Exec n out HostExecutor)
  = match n with
    | CumSumOp _ _ _ | TraceOp _ _ =>
        match out with [] => false | _ :: _ => true end
    | _ => false
    end.
Proof.
  destruct n as [t|dims op|a od tmp|a od tmp|a tmp|a b al be perm od tmp|a|a tmp];
    try reflexivity; destruct out; reflexivity.
Qed.

(** ** PreRun *)

Lemma is_Ok_obind_false {A B : Type} (m : outcome A) (k : A -> outcome B) :
  is_Ok m = false -> is_Ok (obind m k) = false.
Proof. destruct m; simpl; intros H; (discriminate || reflexivity). Qed.

Lemma alloc_if_device_Ok_inv (od : list (option Z)) (tmp : tensor_t) (ex : Executor)
    (rt : tensor_t * list event) :
  alloc_if_device od tmp ex = Ok rt ->
  match ex with
  | DeviceExecutor st =>
      exists sh, arr_values "out_dims_" 0 od = Ok sh
                 /\ rt = (device_tmp sh st, [Alloc sh MATX_ASYNC_DEVICE_MEMORY (Some st)])
  | HostExecutor => rt = (tmp, [])
  end.
Proof.
  unfold alloc_if_device, make_tensor. destruct ex as [st|]; simpl; intros H.
  - inv_bind H. injection H as <-. eauto.
  - now injection H as <-.
Qed.

Lemma alloc_if_device_again (od : list (option Z)) (tmp : tensor_t) (ex : Executor)
    (rt : tensor_t * list event) :
  alloc_if_device od tmp ex = Ok rt -> alloc_if_device od (fst rt) ex = Ok rt.
Proof.
  intros H. pose proof (alloc_if_device_Ok_inv _ _ _ _ H) as Hinv.
  destruct ex as [st|].
  - exact H.
  - subst rt. reflexivity.
Qed.

Lemma sizes_upto_ext (n n' : Op) (k : nat) :
  (forall d, Size n' d = Size n d) -> sizes_upto n' k = sizes_upto n k.
Proof.
  intros H. induction k as [|k IH]; simpl; [reflexivity|]. now rewrite IH, H.
Qed.

(** X3. Preparation does not touch the shape: a node that [PreRun] returns
    has the rank of the node it was given and the same [Size] at every
    dimension, in or out of range. *)
Theorem PreRun_keeps_rank_and_sizes (n : Op) (ex : Executor) :
  forall (n' : Op) (ev : list event),
    PreRun n ex = Ok (n', ev) ->
    Rank n' = Rank n
    /\ (forall d : Z, Size n' d = Size n d)
    /\ extents n' = extents n.
Proof.
  assert (Hmain : forall n' ev, PreRun n ex = Ok (n', ev) ->
            Rank n' = Rank n /\ (forall d : Z, Size n' d = Size n d)).
  { induction n as [t|dims op IH|a IH od tmp|a IH od tmp|a IH tmp
                    |a IHa b IHb al be perm od tmp|a IH|a IH tmp];
      intros n' ev H; simpl in H.
    - injection H as <- <-. auto.
    - inv_bind H. destruct x as [op' ev']. injection H as <- <-.
      destruct (IH _ _ E) as [Hr Hs]. split; [exact Hr|].
      intros d. simpl. destruct (arr_get "dims_" (array_of dims) d); simpl; auto.
    - inv_bind H. destruct x as [a' eva]. repeat inv_bind H. injection H as <- <-.
      destruct (IH _ _ E) as [Hr Hs]. simpl. auto.
    - inv_bind H. destruct x as [a' eva]. repeat inv_bind H. injection H as <- <-.
      destruct (IH _ _ E) as [Hr Hs]. simpl. auto.
    - inv_bind H. destruct x as [a' eva]. repeat inv_bind H. injection H as <- <-.
      simpl. auto.
    - inv_bind H. destruct x as [a' eva]. repeat inv_bind H. injection H as <- <-.
      destruct (IHa _ _ E) as [Hr Hs]. simpl. auto.
    - discriminate.
    - discriminate. }
  intros n' ev H. destruct (Hmain n' ev H) as [Hr Hs].
  split; [exact Hr|]. split; [exact Hs|].
  unfold extents. rewrite Hr. now apply sizes_upto_ext.
Qed.

Lemma PreRun_keeps_rank_and_sizes_witness :
  Rank (CumSumOp (tensor_of [2; 3] 0) (array_of [2; 3]) (device_tmp [2; 3] 7)) = 2%nat
  /\ Size (CumSumOp (tensor_of [2; 3] 0) (array_of [2; 3]) (device_tmp [2; 3] 7)) 1
     = Ok 3.
Proof.
  destruct (PreRun_keeps_rank_and_sizes
              (CumSumOp (tensor_of [2; 3] 0) (array_of [2; 3]) (tensor_default 2))
              (DeviceExecutor 7)
              (CumSumOp (tensor_of [2; 3] 0) (array_of [2; 3]) (device_tmp [2; 3] 7))
              [Alloc [2; 3] MATX_ASYNC_DEVICE_MEMORY (Some 7);
               Kernel "cumsum_impl" [Tensor (device_tmp [2; 3] 7)] [tensor_of [2; 3] 0]]
              eq_refl) as (Hr & Hs & _).
  split; [exact Hr | exact (Hs 1)].
Defined.

(** X4. There is no guard against preparing twice: [PreRun] on the node
    that a first [PreRun] returned gives that node again and repeats every
    allocation and every kernel call of the first run. *)
Theorem PreRun_again_repeats_the_work (n : Op) (ex : Executor) :
  forall (n' : Op) (ev : list event),
    PreRun n ex = Ok (n', ev) -> PreRun n' ex = Ok (n', ev).
Proof.
  induction n as [t|dims op IH|a IH od tmp|a IH od tmp|a IH tmp
                  |a IHa b IHb al be perm od tmp|a IH|a IH tmp];
    intros n' ev H; simpl in H.
  - injection H as <- <-. reflexivity.
  - inv_bind H. destruct x as [op' ev']. injection H as <- <-.
    simpl. now rewrite (IH _ _ E).
  - inv_bind H. destruct x as [a' eva]. inv_bind H. inv_bind H.
    injection H as <- <-. simpl in *.
    rewrite (IH _ _ E). simpl. rewrite (alloc_if_device_again _ _ _ _ E0). simpl.
    now rewrite E1.
  - inv_bind H. destruct x as [a' eva]. inv_bind H.
    injection H as <- <-. simpl in *.
    rewrite (IH _ _ E). simpl. now rewrite (alloc_if_device_again _ _ _ _ E0).
  - inv_bind H. destruct x as [a' eva]. inv_bind H.
    injection H as <- <-. simpl in *.
    rewrite (IH _ _ E). simpl. now rewrite E0.
  - inv_bind H. destruct x as [a' eva]. inv_bind H. destruct x as [b' evb].
    inv_bind H. inv_bind H. injection H as <- <-. simpl in *.
    rewrite (IHa _ _ E), (IHb _ _ E0). simpl.
    rewrite (alloc_if_device_again _ _ _ _ E1). simpl. now rewrite E2.
  - discriminate.
  - discriminate.
Qed.

Lemma PreRun_again_repeats_the_work_witness :
  PreRun (TraceOp (tensor_of [3; 3] 0) host_scalar_tmp) HostExecutor
  = Ok (TraceOp (tensor_of [3; 3] 0) host_scalar_tmp,
        [Alloc [] MATX_HOST_MEMORY None;
         Kernel "trace_impl" [Tensor host_scalar_tmp] [tensor_of [3; 3] 0]]).
Proof.
  apply (PreRun_again_repeats_the_work (trace (tensor_of [3; 3] 0)) HostExecutor).
  reflexivity.
Defined.

Lemma count_events_app (p : event -> bool) (e1 e2 : list event) :
  count_events p (e1 ++ e2) = (count_events p e1 + count_events p e2)%nat.
Proof. induction e1 as [|e e1 IH]; simpl; [reflexivity|]. rewrite IH. lia. Qed.

Lemma Exec_counts (n : Op) (out : list tensor_t) (ex : Executor) (evs : list event) :
  Exec n out ex = Ok evs ->
  count_events is_Kernel evs = 1%nat /\ count_events is_Alloc evs = 0%nat
  /\ count_events is_Printf evs = 0%nat.
Proof.
  intros H.
  destruct n as [t|dims op|a od tmp|a od tmp|a tmp|a b al be perm od tmp|a|a tmp];
    simpl in H; try discriminate; repeat inv_bind H;
    try (destruct perm); injection H as <-; auto.
Qed.

(** X5. A preparation that returns has run the kernel of every transform
    node of the tree exactly once.  Under the device executor it has made
    one allocation per transform node; under the host executor one per
    trace node and no other.  It prints nothing. *)
Theorem PreRun_one_kernel_per_transform_node (n : Op) (ex : Executor) :
  forall (n' : Op) (ev : list event),
    PreRun n ex = Ok (n', ev) ->
    count_events is_Kernel ev = transform_nodes n
    /\ count_events is_Alloc ev
       = (if is_device_executor_v ex then transform_nodes n else trace_nodes n)
    /\ count_events is_Printf ev = 0%nat.
Proof.
  induction n as [t|dims op IH|a IH od tmp|a IH od tmp|a IH tmp
                  |a IHa b IHb al be perm od tmp|a IH|a IH tmp];
    intros n' ev H; simpl in H.
  - injection H as <- <-. simpl. destruct ex; auto.
  - inv_bind H. destruct x as [op' ev']. injection H as <- <-. simpl.
    now apply (IH op').
  - inv_bind H. destruct x as [a' eva]. inv_bind H. inv_bind H.
    injection H as <- <-.
    destruct (IH _ _ E) as (Hk & Ha & Hp).
    destruct (Exec_counts (CovOp a' od (fst x)) [fst x] ex x0 E1) as (Hk1 & Ha1 & Hp1).
    apply alloc_if_device_Ok_inv in E0.
    cbn [fst snd transform_nodes trace_nodes].
    rewrite !count_events_app, Hk, Ha, Hp, Hk1, Ha1, Hp1.
    destruct ex as [st|]; [destruct E0 as (sh & _ & ->) | discriminate E1].
    simpl. repeat split; lia.
  - inv_bind H. destruct x as [a' eva]. inv_bind H.
    injection H as <- <-. simpl in *.
    destruct (IH _ _ E) as (Hk & Ha & Hp).
    apply alloc_if_device_Ok_inv in E0.
    rewrite !count_events_app, Hk, Ha, Hp.
    destruct ex as [st|]; [destruct E0 as (sh & _ & ->) | subst x];
      simpl; repeat split; lia.
  - inv_bind H. destruct x as [a' eva]. inv_bind H.
    injection H as <- <-. simpl in *.
    destruct (IH _ _ E) as (Hk & Ha & Hp).
    rewrite !count_events_app, Hk, Ha, Hp.
    destruct ex as [st|]; simpl in E0; injection E0 as <-;
      simpl; repeat split; lia.
  - inv_bind H. destruct x as [a' eva]. inv_bind H. destruct x as [b' evb].
    inv_bind H. inv_bind H. injection H as <- <-.
    destruct (IHa _ _ E) as (Hk & Ha & Hp).
    destruct (IHb _ _ E0) as (Hkb & Hab & Hpb).
    destruct (Exec_counts (MatMulOp a' b' al be perm od (fst x)) [fst x] ex x0 E2)
      as (Hk1 & Ha1 & Hp1).
    apply alloc_if_device_Ok_inv in E1.
    cbn [fst snd transform_nodes trace_nodes].
    rewrite !count_events_app, Hk, Ha, Hp, Hkb, Hab, Hpb, Hk1, Ha1, Hp1.
    destruct ex as [st|]; [destruct E1 as (sh & _ & ->) | discriminate E2].
    simpl. repeat split; lia.
  - discriminate.
  - discriminate.
Qed.

Lemma PreRun_one_kernel_per_transform_node_witness :
  count_events is_Kernel
    [Alloc [] MATX_ASYNC_DEVICE_MEMORY (Some 7);
     Kernel "trace_impl" [Tensor (device_tmp [] 7)] [tensor_of [2; 2] 0];
     Alloc [] MATX_ASYNC_DEVICE_MEMORY (Some 7);
     Kernel "cumsum_impl" [Tensor (device_tmp [] 7)]
       [TraceOp (tensor_of [2; 2] 0) (device_tmp [] 7)]] = 2%nat.
Proof.
  apply (proj1 (PreRun_one_kernel_per_transform_node
                  (CumSumOp (trace (tensor_of [2; 2] 0)) (array_of []) (tensor_default 0))
                  (DeviceExecutor 7)
                  (CumSumOp (TraceOp (tensor_of [2; 2] 0) (device_tmp [] 7)) (array_of [])
                            (device_tmp [] 7)) _ eq_refl)).
Defined.

(** X6. A multi-output node cannot be prepared wherever it sits: [PreRun]
    fails, under every executor, on every expression tree in which a QR
    node occurs. *)
Theorem PreRun_fails_on_any_tree_with_qr (n : Op) (ex : Executor) :
  has_qr n = true -> is_Ok (PreRun n ex) = false.
Proof.
  induction n as [t|dims op IH|a IH od tmp|a IH od tmp|a IH tmp
                  |a IHa b IHb al be perm od tmp|a IH|a IH tmp];
    simpl; intros H; try discriminate; try reflexivity;
    try (apply is_Ok_obind_false; now apply IH).
  apply orb_prop in H as [H|H].
  - apply is_Ok_obind_false. now apply IHa.
  - destruct (PreRun a ex) as [ra| | | |]; try reflexivity. simpl.
    apply is_Ok_obind_false. now apply IHb.
Qed.

Lemma PreRun_fails_on_any_tree_with_qr_witness :
  is_Ok (PreRun (MatMulOp (tensor_of [2; 2] 0)
                          (trace (CumSumOp (qr (tensor_of [2; 2] 1)) (array_of [2; 2])
                                           (tensor_default 2)))
                          1%Q 0%Q None (array_of [2; 2]) (tensor_default 2))
                (DeviceExecutor 0)) = false.
Proof.
  apply PreRun_fails_on_any_tree_with_qr. reflexivity.
Defined.

(** ** The value of a node before and after preparation *)

Lemma tensor_at_default (r : nat) (indices : list Z) :
  length indices = r -> tensor_at (tensor_default r) indices = Undefined NullData.
Proof.
  intros H. unfold tensor_at, tensor_default. simpl.
  now rewrite length_replicate, H, Nat.eqb_refl.
Qed.

(** X7. A transform node has no value until it is prepared: on the node
    that [cumsum], [cov], [trace] or [matmul] (with or without an axis
    pair) has just built, element access reads a default-constructed
    temporary, which has no storage. *)
Theorem fresh_transform_node_has_no_value
    (a b : Op) (alpha beta : Q) (axis : Z * Z) (n : Op) (ev : list event)
    (indices : list Z) :
  cumsum a = Ok n \/ cov a = Ok n \/ n = trace a
  \/ matmul a b alpha beta = Ok (n, ev) \/ matmul_axis a b axis alpha beta = Ok (n, ev) ->
  length indices = Rank n ->
  Op_at n indices = Undefined NullData.
Proof.
  intros [H | [H | [H | [H | H]]]] Hlen.
  - unfold cumsum, CumSumOp_ctor in H. inv_bind H. injection H as <-.
    simpl in *. now apply tensor_at_default.
  - unfold cov, CovOp_ctor in H. inv_bind H. injection H as <-.
    simpl in *. now apply tensor_at_default.
  - subst n. simpl in *. now apply tensor_at_default.
  - unfold matmul, MatMulOp_ctor in H. repeat inv_bind H. injection H as <- <-.
    simpl in *. now apply tensor_at_default.
  - unfold matmul_axis, MatMulOp_ctor in H. repeat inv_bind H. injection H as <- <-.
    simpl in *. now apply tensor_at_default.
Qed.

Lemma fresh_transform_node_has_no_value_witness :
  Op_at (trace (tensor_of [3; 3] 0)) [] = Undefined NullData.
Proof.
  apply (fresh_transform_node_has_no_value (tensor_of [3; 3] 0) (tensor_of [3; 3] 0)
           1%Q 0%Q (0, 1) (trace (tensor_of [3; 3] 0)) []).
  - right. right. left. reflexivity.
  - reflexivity.
Defined.

Lemma cumsum_Ok_form (a : Op) (sh : list Z) :
  extents a = Ok sh ->
  cumsum a = Ok (CumSumOp a (array_of sh) (tensor_default (Rank a))).
Proof.
  intros Ha. destruct (extents_Ok_inv _ _ Ha) as [Hlen Hsz].
  unfold cumsum, CumSumOp_ctor.
  rewrite (fill_out_dims_Ok (Rank a) (Size a) sh); try assumption.
  - unfold array_new. rewrite drop_replicate, Nat.sub_diag. simpl.
    now rewrite app_nil_r.
  - unfold array_new. now rewrite length_replicate.
Qed.

(** X8. The cumulative-sum node under the two executors.  Under the device
    executor [PreRun] gives it a temporary of the input's extents and the
    node's elements are then those of that buffer.  Under the host executor
    [PreRun] allocates nothing and still runs the kernel: the destination
    it hands to [cumsum_impl] is the default-constructed temporary, and
    element access on the prepared node still finds no storage. *)
Theorem cumsum_PreRun_host_leaves_no_storage
    (a a' : Op) (sh : list Z) (ex : Executor) (eva : list event) (indices : list Z) :
  extents a = Ok sh ->
  PreRun a ex = Ok (a', eva) ->
  length indices = Rank a ->
  exists n n' ev,
    cumsum a = Ok n /\ PreRun n ex = Ok (n', ev)
    /\ match ex with
       | DeviceExecutor st =>
           ev = eva ++ [Alloc sh MATX_ASYNC_DEVICE_MEMORY (Some st);
                        Kernel "cumsum_impl" [Tensor (device_tmp sh st)] [a']]
           /\ Op_at n' indices
              = Ok (Allocated MATX_ASYNC_DEVICE_MEMORY (Some st), indices)
       | HostExecutor =>
           ev = eva ++ [Kernel "cumsum_impl" [Tensor (tensor_default (Rank a))] [a']]
           /\ t_data (tensor_default (Rank a)) = NoStorage
           /\ Op_at n' indices = Undefined NullData
       end.
Proof.
  intros Ha Hpre Hlen.
  destruct (extents_Ok_inv _ _ Ha) as [Hsh _].
  rewrite (cumsum_Ok_form a sh Ha).
  destruct ex as [st|].
  - do 3 eexists. split; [reflexivity|]. split.
    + simpl. rewrite Hpre. simpl. unfold alloc_if_device, make_tensor. simpl.
      rewrite arr_values_of. simpl. reflexivity.
    + split; [reflexivity|]. simpl. unfold tensor_at. simpl.
      now rewrite Hlen, Hsh, Nat.eqb_refl.
  - do 3 eexists. split; [reflexivity|]. split.
    + simpl. rewrite Hpre. simpl. reflexivity.
    + split; [reflexivity|]. split; [reflexivity|]. simpl.
      now apply tensor_at_default.
Qed.

Lemma cumsum_PreRun_host_leaves_no_storage_witness :
  exists n n' ev,
    cumsum (tensor_of [2; 3] 0) = Ok n /\ PreRun n HostExecutor = Ok (n', ev)
    /\ ev = [] ++ [Kernel "cumsum_impl" [Tensor (tensor_default 2)] [tensor_of [2; 3] 0]]
    /\ t_data (tensor_default 2) = NoStorage
    /\ Op_at n' [1; 2] = Undefined NullData.
Proof.
  apply (cumsum_PreRun_host_leaves_no_storage (tensor_of [2; 3] 0) (tensor_of [2; 3] 0)
           [2; 3] HostExecutor [] [1; 2]); reflexivity.
Defined.

(** ** matmul.h without a permutation *)

(** X9. Without an axis pair and with operands of one rank, at least 2,
    [matmul] builds a node of that rank whose extents are A's in every
    batch dimension and in the second-to-last dimension and B's in the
    last; the construction prints nothing. *)
Theorem matmul_same_rank_extents (a b : Op) (alpha beta : Q) (sa sb : list Z) :
  extents a = Ok sa -> extents b = Ok sb ->
  Rank a = Rank b -> (2 <= Rank a)%nat ->
  exists n, matmul a b alpha beta = Ok (n, [])
            /\ Rank n = Rank a
            /\ extents n = Ok (take (length sa - 1) sa ++ drop (length sb - 1) sb).
Proof. apply matmul_extents_no_permute. Qed.

Lemma matmul_same_rank_extents_witness :
  exists n, matmul (tensor_of [6; 4; 3] 0) (tensor_of [6; 3; 5] 1) 1%Q 0%Q = Ok (n, [])
            /\ Rank n = 3%nat
            /\ extents n = Ok [6; 4; 5].
Proof.
  apply (matmul_same_rank_extents (tensor_of [6; 4; 3] 0) (tensor_of [6; 3; 5] 1)
           1%Q 0%Q [6; 4; 3] [6; 3; 5]); try reflexivity.
  simpl. lia.
Defined.

(** X10. Without an axis pair the operands' ranks are not compared.  When B
    has the lower rank the node is built with A's rank, B's last extent is
    stored at dimension Rank(B)-1 and the last cell of [out_dims_] is never
    written, so that [Size] of the last dimension reads an indeterminate
    value.  When B has the higher rank the constructor writes
    [out_dims_[Rank(B)-1]] outside the array. *)
Theorem matmul_rank_mismatch (a b : Op) (alpha beta : Q) (sa sb : list Z) :
  extents a = Ok sa -> extents b = Ok sb -> (2 <= Rank a)%nat ->
  ((1 <= Rank b < Rank a)%nat ->
     exists n l,
       matmul a b alpha beta = Ok (n, [])
       /\ Rank n = Rank a
       /\ sb !! (Rank b - 1)%nat = Some l
       /\ Size n (Z.of_nat (Rank b) - 1) = Ok l
       /\ Size n (Z.of_nat (Rank a) - 1)
          = Undefined (Indeterminate "out_dims_" (Z.of_nat (Rank a) - 1)))
  /\ ((Rank a < Rank b)%nat ->
      matmul a b alpha beta
      = Undefined (ArrayIndex "out_dims_" (Z.of_nat (Rank b) - 1) (Rank a))).
Proof.
  intros Ha Hb Hr.
  destruct (extents_Ok_inv _ _ Ha) as [Hla Hsa].
  destruct (extents_Ok_inv _ _ Hb) as [Hlb Hsb].
  set (R := Rank a) in *. set (RB := Rank b) in *.
  destruct (lookup_lt_is_Some_2 sa (R - 2)) as [m Hm]; [lia|].
  assert (HZ2 : Z.to_nat (Z.of_nat R - 2) = (R - 2)%nat) by lia.
  assert (Hpre : length (array_of (take (R - 2) sa)) = (R - 2)%nat).
  { unfold array_of. rewrite length_map, length_take. lia. }
  assert (Hd : drop (R - 2) (array_new R) = [None; None]).
  { unfold array_new. rewrite drop_replicate.
    replace (R - (R - 2))%nat with 2%nat by lia. reflexivity. }
  assert (Hcommon :
            matmul a b alpha beta
            = (n0 <- Size b (Z.of_nat RB - 1) ;;
               od3 <- arr_set "out_dims_"
                        (array_of (take (R - 2) sa) ++ [Some m; None])
                        (Z.of_nat RB - 1) n0 ;;
               Ok (MatMulOp a b alpha beta None od3 (tensor_default R), []))).
  { unfold matmul, MatMulOp_ctor. fold R. fold RB. rewrite HZ2.
    rewrite (fill_out_dims_Ok (R - 2) (Size a) (take (R - 2) sa)).
    2:{ rewrite length_take. lia. }
    2:{ unfold array_new. rewrite length_replicate. lia. }
    2:{ intros k v Hk. apply Hsa. now apply lookup_take_Some in Hk as [? _]. }
    cbn [obind].
    rewrite (Size_lookup a sa (Z.of_nat R - 2) m Ha) by (rewrite ?HZ2; auto; lia).
    cbn [obind]. rewrite Hd.
    rewrite arr_set_in by (rewrite length_app, Hpre; simpl; lia).
    cbn [obind]. rewrite HZ2.
    rewrite insert_app_r_alt by lia. rewrite Hpre, Nat.sub_diag. reflexivity. }
  split.
  - intros HRB.
    destruct (lookup_lt_is_Some_2 sb (RB - 1)) as [l Hl]; [lia|].
    assert (HZ1 : Z.to_nat (Z.of_nat RB - 1) = (RB - 1)%nat) by lia.
    rewrite Hcommon.
    rewrite (Size_lookup b sb (Z.of_nat RB - 1) l Hb) by (rewrite ?HZ1; auto; lia).
    cbn [obind].
    rewrite arr_set_in by (rewrite length_app, Hpre; simpl; lia).
    cbn [obind]. rewrite HZ1.
    eexists _, l. split; [reflexivity|]. split; [reflexivity|]. split; [exact Hl|].
    simpl. split.
    + apply arr_get_lookup; [lia|]. rewrite HZ1.
      apply list_lookup_insert_eq. rewrite length_app, Hpre. simpl. lia.
    + unfold arr_get. destruct (Z.ltb_spec (Z.of_nat R - 1) 0); [lia|].
      replace (Z.to_nat (Z.of_nat R - 1)) with (R - 1)%nat by lia.
      rewrite list_lookup_insert_ne by lia.
      rewrite lookup_app_r by lia. rewrite Hpre.
      replace (R - 1 - (R - 2))%nat with 1%nat by lia. reflexivity.
  - intros HRB.
    destruct (lookup_lt_is_Some_2 sb (RB - 1)) as [l Hl]; [lia|].
    assert (HZ1 : Z.to_nat (Z.of_nat RB - 1) = (RB - 1)%nat) by lia.
    rewrite Hcommon.
    rewrite (Size_lookup b sb (Z.of_nat RB - 1) l Hb) by (rewrite ?HZ1; auto; lia).
    cbn [obind].
    rewrite arr_set_beyond by (rewrite length_app, Hpre; simpl; lia).
    cbn [obind]. rewrite length_app, Hpre. simpl.
    do 2 f_equal. lia.
Qed.

Lemma matmul_rank_mismatch_witness :
  (exists n l,
     matmul (tensor_of [6; 4; 3] 0) (tensor_of [3; 5] 1) 1%Q 0%Q = Ok (n, [])
     /\ Rank n = 3%nat
     /\ [3; 5] !! 1%nat = Some l
     /\ Size n 1 = Ok l
     /\ Size n 2 = Undefined (Indeterminate "out_dims_" 2))
  /\ matmul (tensor_of [4; 3] 0) (tensor_of [6; 3; 5] 1) 1%Q 0%Q
     = Undefined (ArrayIndex "out_dims_" 2 2).
Proof.
  split.
  - apply (proj1 (matmul_rank_mismatch (tensor_of [6; 4; 3] 0) (tensor_of [3; 5] 1)
                    1%Q 0%Q [6; 4; 3] [3; 5] eq_refl eq_refl ltac:(simpl; lia))).
    simpl. lia.
  - apply (proj2 (matmul_rank_mismatch (tensor_of [4; 3] 0) (tensor_of [6; 3; 5] 1)
                    1%Q 0%Q [4; 3] [6; 3; 5] eq_refl eq_refl ltac:(simpl; lia))).
    simpl. lia.
Defined.

(** ** cumsum.h: the output shape *)

(** X11. A cumulative-sum node has the rank and the extents of its input,
    at every rank, and [Size] returns exactly at the dimensions
    0 .. Rank()-1. *)
Theorem cumsum_identity_shape (a : Op) (sh : list Z) :
  extents a = Ok sh ->
  exists n,
    cumsum a = Ok n /\ Rank n = Rank a /\ extents n = Ok sh
    /\ forall d : Z,
         is_Ok (Size n d) = (0 <=? d) && (d <? Z.of_nat (Rank a)).
Proof.
  intros Ha. destruct (extents_Ok_inv _ _ Ha) as [Hlen _].
  destruct (cumsum_extents a sh Ha) as (n & Hn & Hr & He).
  exists n. repeat split; try assumption.
  rewrite (cumsum_Ok_form a sh Ha) in Hn. injection Hn as <-.
  intros d. simpl. unfold arr_get.
  destruct (Z.ltb_spec d 0) as [Hneg|Hpos].
  - destruct (Z.leb_spec 0 d); [lia | reflexivity].
  - destruct (Z.leb_spec 0 d); [|lia]. simpl.
    unfold array_of. rewrite list_lookup_fmap.
    destruct (Z.ltb_spec d (Z.of_nat (Rank a))) as [Hin|Hout].
    + destruct (lookup_lt_is_Some_2 sh (Z.to_nat d)) as [v Hv]; [lia|].
      now rewrite Hv.
    + rewrite (lookup_ge_None_2 sh (Z.to_nat d)) by lia. reflexivity.
Qed.

Lemma cumsum_identity_shape_witness :
  exists n,
    cumsum (tensor_of [2; 3; 4] 0) = Ok n /\ Rank n = 3%nat
    /\ extents n = Ok [2; 3; 4]
    /\ forall d : Z, is_Ok (Size n d) = (0 <=? d) && (d <? 3).
Proof.
  apply (cumsum_identity_shape (tensor_of [2; 3; 4] 0) [2; 3; 4]). reflexivity.
Defined.

(** * Further properties of the slice node *)

Tactic Notation "inv_bind_as" hyp(H) ident(x) ident(E) :=
  apply obind_Ok_inv in H; destruct H as (x & E & H).

Section SliceFurther.

Context {V L : Type} {sentinels : Sentinels}.

(** The cell of [sizes_] at an output position. *)
Lemma ctor_sizes_from_lookup (all_strides : list Z) (es : list Z) :
  forall (ns ss : list Z) (d : nat) (i0 : Z) (k : nat) (p n s e : Z),
    retained_from i0 es !! k = Some p ->
    ns !! Z.to_nat (p - i0) = Some n ->
    ss !! Z.to_nat (p - i0) = Some s ->
    es !! Z.to_nat (p - i0) = Some e ->
    ctor_sizes_from d all_strides ns ss es !! k
    = Some (ceil_quot (idx_sub (resolve_end n e) s)
                      (default 0 (all_strides !! (d + k)%nat))).
Proof.
  induction es as [|e0 es IH]; intros ns ss d i0 k p n s e Hp Hn Hs He;
    [discriminate|].
  pose proof (retained_from_bounds _ _ _ _ Hp) as [Hb _].
  destruct ns as [|n0 ns]; [discriminate|]. destruct ss as [|s0 ss]; [discriminate|].
  simpl in Hp |- *.
  destruct (e0 =? matxDropDim) eqn:Hdrop.
  - pose proof (retained_from_bounds _ _ _ _ Hp) as [Hb' _].
    replace (Z.to_nat (p - i0)) with (Datatypes.S (Z.to_nat (p - (i0 + 1))))
      in Hn, Hs, He by lia.
    simpl in Hn, Hs, He. now apply (IH ns ss d (i0 + 1) k p).
  - destruct k as [|k]; simpl in Hp.
    + injection Hp as <-. rewrite Z.sub_diag in Hn, Hs, He. simpl in Hn, Hs, He.
      injection Hn as <-. injection Hs as <-. injection He as <-.
      simpl. now rewrite Nat.add_0_r.
    + pose proof (retained_from_bounds _ _ _ _ Hp) as [Hb' _].
      replace (Z.to_nat (p - i0)) with (Datatypes.S (Z.to_nat (p - (i0 + 1))))
        in Hn, Hs, He by lia.
      simpl in Hn, Hs, He. simpl.
      rewrite (IH ns ss (Datatypes.S d) (i0 + 1) k p n s e Hp Hn Hs He).
      now rewrite Nat.add_succ_r.
Qed.

(** The coordinate of a retained dimension. *)
Lemma ctor_index_from_lookup (all_strides : list Z) (es : list Z) :
  forall (ss : list Z) (d : nat) (i0 : Z) (xs : list Z) (k : nat) (p x s : Z),
    retained_from i0 es !! k = Some p ->
    xs !! k = Some x ->
    ss !! Z.to_nat (p - i0) = Some s ->
    ctor_index_from d all_strides ss es xs !! Z.to_nat (p - i0)
    = Some (idx_add s (idx_mul x (default 0 (all_strides !! (d + k)%nat)))).
Proof.
  induction es as [|e0 es IH]; intros ss d i0 xs k p x s Hp Hx Hs; [discriminate|].
  destruct ss as [|s0 ss]; [discriminate|].
  simpl in Hp |- *.
  destruct (e0 =? matxDropDim) eqn:Hdrop.
  - pose proof (retained_from_bounds _ _ _ _ Hp) as [Hb' _].
    replace (Z.to_nat (p - i0)) with (Datatypes.S (Z.to_nat (p - (i0 + 1))))
      in Hs |- * by lia.
    simpl in Hs |- *. now apply (IH ss d (i0 + 1) xs k p).
  - destruct xs as [|x0 xs]; [discriminate|].
    destruct k as [|k]; simpl in Hp, Hx.
    + injection Hp as <-. injection Hx as <-.
      rewrite Z.sub_diag in Hs |- *. simpl in Hs |- *. injection Hs as <-.
      now rewrite Nat.add_0_r.
    + pose proof (retained_from_bounds _ _ _ _ Hp) as [Hb' _].
      replace (Z.to_nat (p - i0)) with (Datatypes.S (Z.to_nat (p - (i0 + 1))))
        in Hs |- * by lia.
      simpl in Hs |- *.
      rewrite (IH ss (Datatypes.S d) (i0 + 1) xs k p x s Hp Hx Hs).
      now rewrite Nat.add_succ_r.
Qed.

(** The index vector of an access on a constructed slice, coordinate by
    coordinate. *)
Lemma slice_index_coordinates (dim : nat) (op : Operand V L)
    (starts ends strides : list Z) (s : SliceOp V L) (indices : list Z) :
  SliceOp_ctor dim op starts ends strides = Ok s ->
  length indices = dim ->
  exists ind,
    SliceOp_index s indices = Ok ind
    /\ SliceOp_get s indices = op_get op ind
    /\ SliceOp_ref s indices = op_ref op ind
    /\ length ind = op_Rank op
    /\ (forall (j : nat) (s0 : Z),
          ends !! j = Some matxDropDim -> starts !! j = Some s0 -> ind !! j = Some s0)
    /\ (forall (k : nat) (p x s0 st : Z),
          retained ends !! k = Some p -> indices !! k = Some x ->
          starts !! Z.to_nat p = Some s0 -> strides !! k = Some st ->
          ind !! Z.to_nat p = Some (idx_add s0 (idx_mul x st))).
Proof.
  intros Hc Hli.
  destruct (SliceOp_ctor_lengths _ _ _ _ _ _ Hc) as (Hls & Hle & Hlst).
  destruct (proj1 (SliceOp_access_spec dim op starts ends strides s indices Hc) Hli)
    as (Hidx & Hget & Href).
  exists (ctor_index strides starts ends indices).
  repeat split; try assumption.
  - unfold ctor_index. rewrite ctor_index_from_length; congruence.
  - intros j s0 He Hs. unfold ctor_index. now apply ctor_index_from_dropped.
  - intros k p x s0 st Hp Hx Hs Hst. unfold ctor_index, retained in *.
    pose proof (ctor_index_from_lookup strides ends starts 0 0 indices k p x s0 Hp Hx)
      as Hlook.
    rewrite Z.sub_0_r, Nat.add_0_l, Hst in Hlook. now apply Hlook.
Qed.

(** X12. Element access on a constructed slice, for both overloads: the
    operand is read (or referred to) at the index vector that has the start
    offset at every dropped dimension and, at the dimension retained at
    output position k, the start offset plus the k-th index times the
    entry k of the stride table, in the arithmetic of [index_t]. *)
Theorem slice_access_coordinates (dim : nat) (op : Operand V L)
    (starts ends strides : list Z) (s : SliceOp V L) (indices : list Z) :
  SliceOp_ctor dim op starts ends strides = Ok s ->
  length indices = dim ->
  exists ind,
    SliceOp_index s indices = Ok ind
    /\ SliceOp_get s indices = op_get op ind
    /\ SliceOp_ref s indices = op_ref op ind
    /\ length ind = op_Rank op
    /\ (forall (j : nat) (s0 : Z),
          ends !! j = Some matxDropDim -> starts !! j = Some s0 -> ind !! j = Some s0)
    /\ (forall (k : nat) (p x s0 st : Z),
          retained ends !! k = Some p -> indices !! k = Some x ->
          starts !! Z.to_nat p = Some s0 -> strides !! k = Some st ->
          ind !! Z.to_nat p = Some (idx_add s0 (idx_mul x st))).
Proof. apply slice_index_coordinates. Qed.

(** X13. Two nested slices that drop no dimension read and refer to the
    element that the one composed slice does (start s1 + s2*st1, stride
    st1*st2), for every operand, at every index and with the wrap-around of
    [index_t]. *)
Theorem slice_of_slice_composes (T : Operand V L)
    (s1 e1 st1 s2 e2 st2 e : list Z) (inner outer single : SliceOp V L)
    (indices : list Z) :
  Forall (fun z => z <> matxDropDim) e1 ->
  Forall (fun z => z <> matxDropDim) e2 ->
  Forall (fun z => z <> matxDropDim) e ->
  slice T s1 e1 st1 = Ok inner ->
  slice (SliceOp_operand inner) s2 e2 st2 = Ok outer ->
  slice T (compose_starts s1 st1 s2) e (compose_strides st1 st2) = Ok single ->
  length indices = op_Rank T ->
  SliceOp_get outer indices = SliceOp_get single indices
  /\ SliceOp_ref outer indices = SliceOp_ref single indices.
Proof. apply slice_compose_no_drop. Qed.

(** The cells of [sizes_] that the loop has written. *)
Lemma ctor_sizes_written (dim : nat) (op : Operand V L)
    (starts ends strides : list Z) (s : SliceOp V L) :
  SliceOp_ctor dim op starts ends strides = Ok s ->
  exists l, length l = dim /\ sizes_ s = array_of l.
Proof.
  unfold SliceOp_ctor. intros H.
  inv_bind H. clear E. inv_bind H. clear E. inv_bind H. clear E.
  inv_bind H. rename x2 into st. rename E into Eloop.
  inv_bind H. rename E into Eassert. injection H as <-. simpl.
  apply (for_loop_partial
           (fun _ cs => exists l, cs_d cs = Z.of_nat (length l)
                                  /\ (length l <= dim)%nat
                                  /\ cs_sizes cs = array_of l
                                                   ++ replicate (dim - length l) None))
    in Eloop.
  - destruct Eloop as (l & Hd & Hl & Hsz).
    unfold MATX_ASSERT_STR in Eassert.
    destruct (Z.eqb_spec (cs_d st) (Z.of_nat dim)) as [Heq|]; [|discriminate].
    exists l. rewrite Hd in Heq. apply Nat2Z.inj in Heq. split; [exact Heq|].
    rewrite Hsz, Heq, Nat.sub_diag. simpl. now rewrite app_nil_r.
  - exists []. simpl. rewrite Nat.sub_0_r. repeat split; (lia || reflexivity).
  - intros k cs cs' _ (l & Hd & Hl & Hsz) Hbody.
    unfold SliceOp_ctor_body in Hbody.
    inv_bind_as Hbody start Estart. inv_bind_as Hbody e Eend.
    inv_bind_as Hbody starts1 Estarts1. inv_bind_as Hbody stride Estride.
    inv_bind_as Hbody strides1 Estrides1.
    destruct (e =? matxDropDim).
    + injection Hbody as <-. simpl. eauto.
    + inv_bind_as Hbody dims1 Edims1. inv_bind_as Hbody sz Esz.
      inv_bind_as Hbody sizes1 Esizes1. inv_bind_as Hbody num Enum.
      inv_bind_as Hbody den Eden. inv_bind_as Hbody q Eq.
      inv_bind_as Hbody sizes2 Esizes2. injection Hbody as <-. simpl.
      apply arr_set_Ok_inv in Esizes1 as [Hrange ->].
      apply arr_set_Ok_inv in Esizes2 as [_ ->].
      rewrite Hsz, array_fill_length, Hd in Hrange.
      rewrite Hd, Nat2Z.id, list_insert_insert_eq, Hsz.
      exists (l ++ [q]). rewrite length_app. simpl.
      split; [lia|]. split; [lia|].
      replace (dim - length l)%nat with (Datatypes.S (dim - (length l + 1))) by lia.
      now apply array_fill_at.
Qed.

(** X14. The shape of a constructed slice: its rank is the operand's rank
    less the number of dropped dimensions, and [Size(dim)] is defined
    exactly for 0 <= dim < Rank(); another [dim] indexes [sizes_] out of
    bounds. *)
Theorem slice_rank_and_Size_domain (dim : nat) (op : Operand V L)
    (starts ends strides : list Z) (s : SliceOp V L) :
  SliceOp_ctor dim op starts ends strides = Ok s ->
  SliceOp_Rank s = dim
  /\ (SliceOp_Rank s + length (filter (fun e => e = matxDropDim) ends))%nat
     = op_Rank op
  /\ forall d : Z,
       is_Ok (SliceOp_Size s d) = (0 <=? d) && (d <? Z.of_nat (SliceOp_Rank s))
       /\ (~ 0 <= d < Z.of_nat (SliceOp_Rank s) ->
           SliceOp_Size s d = Undefined (ArrayIndex "sizes_" d dim)).
Proof.
  intros Hc.
  destruct (SliceOp_ctor_lengths _ _ _ _ _ _ Hc) as (Hls & Hle & Hlst).
  destruct (SliceOp_ctor_Ok_inv dim op starts ends strides Hls Hle Hlst s Hc)
    as (HD & _).
  destruct (ctor_sizes_written _ _ _ _ _ _ Hc) as (l & Hl & Hsz).
  split; [exact HD|]. split; [now apply (slice_rank_dropped dim op starts ends strides)|].
  intros d. unfold SliceOp_Size, SliceOp_Rank, arr_get. rewrite HD, Hsz.
  unfold array_of. rewrite length_map, Hl, list_lookup_fmap.
  destruct (Z.ltb_spec d 0) as [Hneg|Hpos].
  - destruct (Z.leb_spec 0 d); [lia|]. split; [reflexivity|]. reflexivity.
  - destruct (Z.leb_spec 0 d); [|lia]. simpl.
    destruct (Z.ltb_spec d (Z.of_nat dim)) as [Hin|Hout].
    + destruct (lookup_lt_is_Some_2 l (Z.to_nat d)) as [v Hv]; [lia|].
      rewrite Hv. split; [reflexivity|]. intros Hn. lia.
    + rewrite (lookup_ge_None_2 l (Z.to_nat d)) by lia. split; reflexivity.
Qed.

(** The loop does not depend on a body's behaviour outside its range. *)
Lemma for_loop_ext {S : Type} (n : nat) (body1 body2 : Z -> S -> outcome S) (s : S) :
  (forall (k : nat) (s' : S), (k < n)%nat ->
     body1 (Z.of_nat k) s' = body2 (Z.of_nat k) s') ->
  for_loop n body1 s = for_loop n body2 s.
Proof.
  induction n as [|n IH]; intros H; simpl; [reflexivity|].
  rewrite IH by (intros; apply H; lia).
  destruct (for_loop n body2 s); simpl; try reflexivity. apply H. lia.
Qed.

(** X15. Unless an end is "to end of dimension" the constructor never asks
    the operand for an extent: two operands of one rank give the same
    outcome and, when a node is built, the same extents, dimensions, start
    offsets and strides.  Starts and ends are not checked against the
    operand. *)
Theorem slice_explicit_ends_ignore_operand (dim : nat) (op op' : Operand V L)
    (starts ends strides : list Z) :
  op_Rank op = op_Rank op' ->
  Forall (fun e => e <> matxEnd) ends ->
  (s <- SliceOp_ctor dim op starts ends strides ;; Ok (SliceOp_members s))
  = (s <- SliceOp_ctor dim op' starts ends strides ;; Ok (SliceOp_members s)).
Proof.
  intros Hr Hends. unfold SliceOp_ctor. rewrite <- Hr.
  destruct (static_assert (0 <? op_Rank op)%nat _); try reflexivity. cbn [obind].
  destruct (static_assert (dim <=? op_Rank op)%nat _); try reflexivity. cbn [obind].
  destruct (static_assert _ "std::array<shape_type, T::Rank()>"); try reflexivity.
  cbn [obind].
  rewrite (for_loop_ext (op_Rank op)
             (SliceOp_ctor_body op (array_of starts) (array_of ends) (array_of strides))
             (SliceOp_ctor_body op' (array_of starts) (array_of ends) (array_of strides))).
  - destruct (for_loop _ _ _) as [st| | | |]; try reflexivity. cbn [obind].
    destruct (MATX_ASSERT_STR _ _ _); reflexivity.
  - intros k cs Hk. unfold SliceOp_ctor_body.
    destruct (arr_get "starts" (array_of starts) (Z.of_nat k)); try reflexivity.
    cbn [obind].
    destruct (arr_get "ends" (array_of ends) (Z.of_nat k)) as [e| | | |] eqn:He;
      try reflexivity.
    cbn [obind].
    apply arr_get_Ok_inv in He as [_ He]. rewrite Nat2Z.id in He.
    unfold array_of in He. rewrite list_lookup_fmap in He.
    destruct (ends !! k) as [e'|] eqn:Hek; [|discriminate]. injection He as ->.
    rewrite Forall_forall in Hends.
    assert (Hne : e <> matxEnd).
    { apply Hends. eapply list_elem_of_lookup_2. exact Hek. }
    destruct (Z.eqb_spec e matxEnd); [contradiction|]. reflexivity.
Qed.

End SliceFurther.

Section SliceConstruction.

Context {V L : Type} {sentinels : Sentinels}.

(** X16. The outcome of a slice construction on an operand of known
    extents, with nonzero strides and numbers that a [double] holds: with
    fewer retained dimensions than the declared rank the check fails with
    its diagnostic; with more, the loop indexes [dims_] at the declared
    rank, one past its end; with as many, the node is built, it lists the
    retained dimensions in their original order and keeps the start offsets
    and strides as given, and its extent at output position k is the
    rounded-up quotient of (resolved end - start) of the dimension retained
    there by the entry k of the stride table. *)
Theorem slice_ctor_outcome (dim : nat) (op : Operand V L)
    (starts ends strides op_sizes : list Z) :
  length starts = op_Rank op -> length ends = op_Rank op ->
  length strides = op_Rank op -> length op_sizes = op_Rank op ->
  (0 < op_Rank op)%nat -> (dim <= op_Rank op)%nat ->
  (forall (i : nat) (n : Z), op_sizes !! i = Some n -> op_Size op (Z.of_nat i) = Ok n) ->
  (forall (i : nat) (st : Z), strides !! i = Some st ->
     st <> 0 /\ double_exact st = true) ->
  (forall (i : nat) (n s e : Z),
     op_sizes !! i = Some n -> starts !! i = Some s -> ends !! i = Some e ->
     e <> matxDropDim -> double_exact (idx_sub (resolve_end n e) s) = true) ->
  ((length (retained ends) < dim)%nat ->
     SliceOp_ctor dim op starts ends strides
     = Throw matxInvalidDim
         "SliceOp: Number of dimensions without matxDropDim must equal new rank.")
  /\ ((dim < length (retained ends))%nat ->
      SliceOp_ctor dim op starts ends strides
      = Undefined (ArrayIndex "dims_" (Z.of_nat dim) dim))
  /\ (length (retained ends) = dim ->
      exists s,
        SliceOp_ctor dim op starts ends strides = Ok s
        /\ dims_ s = array_of (retained ends)
        /\ starts_ s = array_of starts
        /\ strides_ s = array_of strides
        /\ forall (k : nat) (p n s0 e st : Z),
             retained ends !! k = Some p ->
             op_sizes !! Z.to_nat p = Some n -> starts !! Z.to_nat p = Some s0 ->
             ends !! Z.to_nat p = Some e -> strides !! k = Some st ->
             SliceOp_Size s (Z.of_nat k)
             = Ok (ceil_quot (idx_sub (resolve_end n e) s0) st)).
Proof.
  intros Hls Hle Hlst Hlo Hr Hd Hsz Hstr Hex.
  pose proof (SliceOp_ctor_cases dim op starts ends strides op_sizes
                Hls Hle Hlst Hlo Hsz Hstr Hex Hr Hd) as Hcases.
  split; [|split]; intros Hcount.
  - rewrite Hcases. now rewrite (proj2 (Nat.compare_lt_iff _ _) Hcount).
  - rewrite Hcases. now rewrite (proj2 (Nat.compare_gt_iff _ _) Hcount).
  - rewrite Hcases, (proj2 (Nat.compare_eq_iff _ _) Hcount).
    eexists. split; [reflexivity|]. simpl. repeat split.
    intros k p n s0 e st Hp Hn Hs He Hst.
    unfold SliceOp_Size. simpl. apply arr_get_of.
    unfold ctor_sizes, retained in *.
    pose proof (ctor_sizes_from_lookup strides ends op_sizes starts 0 0 k p n s0 e Hp)
      as Hlook.
    rewrite Z.sub_0_r, Nat.add_0_l, Hst in Hlook. now apply Hlook.
Qed.

(** X17. The overloads without strides ([slice(op, starts, ends)] and
    [slice<N>(op, starts, ends)]) follow the rule whatever is dropped: the
    extent of a retained dimension is its resolved end less its start, and
    output index i reads the operand at start + i in that dimension and at
    the start offset in every dropped one. *)
Theorem slice_unit_strides_follow_rule (op : Operand V L)
    (starts ends op_sizes : list Z) :
  length starts = op_Rank op -> length ends = op_Rank op ->
  length op_sizes = op_Rank op -> (0 < op_Rank op)%nat ->
  (forall (i : nat) (n : Z), op_sizes !! i = Some n -> op_Size op (Z.of_nat i) = Ok n) ->
  (forall (i : nat) (n s e : Z),
     op_sizes !! i = Some n -> starts !! i = Some s -> ends !! i = Some e ->
     e <> matxDropDim -> Z.abs (resolve_end n e - s) <= 2 ^ 53) ->
  exists s,
    slice_N_unit (length (retained ends)) op starts ends = Ok s
    /\ (forall (k : nat) (p n s0 e : Z),
          retained ends !! k = Some p ->
          op_sizes !! Z.to_nat p = Some n -> starts !! Z.to_nat p = Some s0 ->
          ends !! Z.to_nat p = Some e ->
          SliceOp_Size s (Z.of_nat k) = Ok (resolve_end n e - s0))
    /\ (forall indices : list Z,
          length indices = length (retained ends) ->
          exists ind,
            SliceOp_get s indices = op_get op ind
            /\ SliceOp_ref s indices = op_ref op ind
            /\ (forall (j : nat) (s0 : Z),
                  ends !! j = Some matxDropDim -> starts !! j = Some s0 ->
                  ind !! j = Some s0)
            /\ (forall (k : nat) (p x s0 : Z),
                  retained ends !! k = Some p -> indices !! k = Some x ->
                  starts !! Z.to_nat p = Some s0 ->
                  ind !! Z.to_nat p = Some (idx_wrap (s0 + x)))).
Proof.
  intros Hls Hle Hlo Hr Hsz Hfit.
  set (rank := op_Rank op) in *.
  pose proof (retained_length_le ends) as Hcount. rewrite Hle in Hcount.
  assert (Hone : forall k : nat, (k < rank)%nat -> replicate rank 1 !! k = Some 1).
  { intros k Hk. now apply lookup_replicate_2. }
  assert (Hin : forall (i : nat) (n s e : Z),
            op_sizes !! i = Some n -> starts !! i = Some s -> ends !! i = Some e ->
            e <> matxDropDim -> idx_sub (resolve_end n e) s = resolve_end n e - s).
  { intros i n s e H1 H2 H3 H4. specialize (Hfit i n s e H1 H2 H3 H4).
    unfold idx_sub. apply idx_wrap_in_range. unfold in_index_t. lia. }
  unfold slice_N_unit, slice_N. fold rank.
  rewrite (SliceOp_ctor_cases (length (retained ends)) op starts ends
             (replicate rank 1) op_sizes); try assumption.
  - rewrite Nat.compare_refl. eexists. split; [reflexivity|]. split.
    + intros k p n s0 e Hp Hn Hs He.
      pose proof (lookup_lt_Some _ _ _ Hp) as Hk.
      destruct (retained_from_bounds _ _ _ _ Hp) as [_ (e' & He' & Hkeep)].
      rewrite Z.sub_0_r, He in He'. injection He' as <-.
      unfold SliceOp_Size. simpl. apply arr_get_of.
      unfold ctor_sizes, retained in *.
      pose proof (ctor_sizes_from_lookup (replicate rank 1) ends op_sizes starts
                    0 0 k p n s0 e Hp) as Hlook.
      rewrite Z.sub_0_r, Nat.add_0_l, (Hone k) in Hlook by lia.
      rewrite (Hlook Hn Hs He). simpl default.
      rewrite (Hin (Z.to_nat p) n s0 e Hn Hs He Hkeep).
      now rewrite ceil_quot_1.
    + intros indices Hli.
      match goal with
      | |- context [SliceOp_get ?s0 _] => set (s := s0)
      end.
      assert (Hc : SliceOp_ctor (length (retained ends)) op starts ends
                     (replicate rank 1) = Ok s).
      { rewrite (SliceOp_ctor_cases (length (retained ends)) op starts ends
                   (replicate rank 1) op_sizes); try assumption.
        - now rewrite Nat.compare_refl.
        - now rewrite length_replicate.
        - intros i st Hst. apply lookup_replicate in Hst as [-> _].
          split; [discriminate | reflexivity].
        - intros i n s0 e H1 H2 H3 H4. rewrite (Hin i n s0 e H1 H2 H3 H4).
          unfold double_exact. apply Z.leb_le. eapply Hfit; eauto. }
      destruct (slice_index_coordinates _ _ _ _ _ _ indices Hc Hli)
        as (ind & _ & Hget & Href & _ & Hdrop & Hkeep).
      exists ind. repeat split; try assumption.
      intros k p x s0 Hp Hx Hs.
      pose proof (lookup_lt_Some _ _ _ Hp) as Hk.
      rewrite (Hkeep k p x s0 1 Hp Hx Hs (Hone k ltac:(lia))).
      unfold idx_add, idx_mul. rewrite Z.mul_1_r. now rewrite idx_wrap_add_r.
  - now rewrite length_replicate.
  - intros i st Hst. apply lookup_replicate in Hst as [-> _].
    split; [discriminate | reflexivity].
  - intros i n s0 e H1 H2 H3 H4. rewrite (Hin i n s0 e H1 H2 H3 H4).
    unfold double_exact. apply Z.leb_le. eapply Hfit; eauto.
Qed.

(** X18. A zero in the first entry of the stride table makes the
    construction undefined as soon as the first dimension is retained: the
    quotient by zero is not a number that converts to [index_t]. *)
Theorem slice_zero_first_stride_undefined (dim : nat) (op : Operand V L)
    (starts ends strides : list Z) (e : Z) :
  length starts = op_Rank op -> length ends = op_Rank op ->
  length strides = op_Rank op ->
  (1 <= dim <= op_Rank op)%nat ->
  ends !! 0%nat = Some e -> e <> matxDropDim ->
  strides !! 0%nat = Some 0 ->
  (e = matxEnd -> exists n, op_Size op 0 = Ok n) ->
  SliceOp_ctor dim op starts ends strides = Undefined FloatToInt.
Proof.
  intros Hls Hle Hlst Hd He Hkeep Hst Hsize.
  unfold SliceOp_ctor.
  destruct (op_Rank op) as [|r] eqn:Hrank; [lia|].
  destruct dim as [|dim']; [lia|].
  destruct starts as [|s0 starts]; [discriminate|].
  destruct ends as [|e0 ends]; [discriminate|].
  destruct strides as [|st0 strides]; [discriminate|].
  simpl in He, Hst. injection He as ->. injection Hst as ->.
  simpl in Hls, Hle, Hlst.
  destruct (Nat.leb_spec (Datatypes.S dim') (Datatypes.S r)) as [_|]; [|lia].
  simpl length. rewrite Hls, Hle, Hlst, Nat.eqb_refl.
  cbn [static_assert Nat.ltb Nat.leb andb obind].
  match goal with
  | |- context [for_loop ?n ?b ?i] =>
      assert (Hloop : for_loop n b i = Undefined FloatToInt)
  end.
  { eapply for_loop_fails_later with (k := 0%nat);
      [lia | reflexivity | | reflexivity].
    unfold SliceOp_ctor_body. simpl.
    destruct (Z.eqb_spec e matxDropDim); [contradiction|].
    destruct (Z.eqb_spec e matxEnd) as [Hend|Hend].
    - destruct (Hsize Hend) as [n0 Hn]. change (Z.of_nat 0) with 0. rewrite Hn. reflexivity.
    - reflexivity. }
  now rewrite Hloop.
Qed.

End SliceConstruction.

(** ** The laws above at concrete slices *)

Section SliceInstances.

#[local] Existing Instance example_sentinels.

Lemma slice_access_coordinates_witness :
  exists ind,
    SliceOp_get row_slice [3] = Ok ind
    /\ ind !! 0%nat = Some 2
    /\ ind !! 1%nat = Some (idx_add 0 (idx_mul 3 1)).
Proof.
  assert (Hc : SliceOp_ctor 1 (index_leaf [3; 8]) [2; 0] [matxDropDim; matxEnd] [1; 2]
               = Ok row_slice) by reflexivity.
  destruct (slice_access_coordinates 1 (index_leaf [3; 8]) [2; 0]
              [matxDropDim; matxEnd] [1; 2] row_slice [3] Hc eq_refl)
    as (ind & _ & Hget & _ & _ & Hdrop & Hkeep).
  exists ind. split; [exact Hget|]. split.
  - apply (Hdrop 0%nat 2); reflexivity.
  - apply (Hkeep 0%nat 1 3 0 1); reflexivity.
Defined.

Lemma slice_of_slice_composes_witness :
  SliceOp_get outer_slice [4] = SliceOp_get single_slice [4]
  /\ SliceOp_ref outer_slice [4] = SliceOp_ref single_slice [4].
Proof.
  apply (slice_of_slice_composes (index_leaf [40]) [2] [matxEnd] [3]
           [1] [matxEnd] [2] [matxEnd] inner_slice outer_slice single_slice [4]).
  - repeat constructor. intros H. vm_compute in H. discriminate H.
  - repeat constructor. intros H. vm_compute in H. discriminate H.
  - repeat constructor. intros H. vm_compute in H. discriminate H.
  - reflexivity.
  - reflexivity.
  - reflexivity.
  - reflexivity.
Defined.

Lemma slice_rank_and_Size_domain_witness :
  SliceOp_Rank row_slice = 1%nat
  /\ is_Ok (SliceOp_Size row_slice 0) = true
  /\ SliceOp_Size row_slice 1 = Undefined (ArrayIndex "sizes_" 1 1).
Proof.
  assert (Hc : SliceOp_ctor 1 (index_leaf [3; 8]) [2; 0] [matxDropDim; matxEnd] [1; 2]
               = Ok row_slice) by reflexivity.
  destruct (slice_rank_and_Size_domain 1 (index_leaf [3; 8]) [2; 0]
              [matxDropDim; matxEnd] [1; 2] row_slice Hc)
    as (Hrank & _ & Hsize).
  split; [exact Hrank|]. split.
  - exact (proj1 (Hsize 0)).
  - apply (proj2 (Hsize 1)). simpl. lia.
Defined.

Lemma slice_explicit_ends_ignore_operand_witness :
  (s <- SliceOp_ctor 2 (index_leaf [3; 8]) [0; 1] [2; 7] [1; 2] ;;
   Ok (SliceOp_members s))
  = (s <- SliceOp_ctor 2 (index_leaf [5; 9]) [0; 1] [2; 7] [1; 2] ;;
     Ok (SliceOp_members s)).
Proof.
  apply slice_explicit_ends_ignore_operand.
  - reflexivity.
  - repeat constructor; intros H; vm_compute in H; discriminate H.
Defined.

Lemma slice_ctor_outcome_witness :
  exists s,
    SliceOp_ctor 1 (index_leaf [3; 8]) [2; 0] [matxDropDim; 7] [1; 1] = Ok s
    /\ dims_ s = [Some 1]
    /\ SliceOp_Size s 0 = Ok 7.
Proof.
  destruct (slice_ctor_outcome 1 (index_leaf [3; 8]) [2; 0] [matxDropDim; 7] [1; 1]
              [3; 8] eq_refl eq_refl eq_refl eq_refl) as (_ & _ & H).
  - simpl. lia.
  - simpl. lia.
  - intros [|[|i]] n Hn; simpl in Hn; try discriminate; injection Hn as <-; reflexivity.
  - intros [|[|i]] st Hst; simpl in Hst; try discriminate; injection Hst as <-;
      split; (discriminate || reflexivity).
  - intros [|[|i]] n s e Hn Hs He Hk; simpl in Hn, Hs, He; try discriminate;
      injection Hn as <-; injection Hs as <-; injection He as <-;
      [now destruct Hk | reflexivity].
  - destruct (H eq_refl) as (s & Hc & Hd & _ & _ & Hsz).
    exists s. split; [exact Hc|]. split; [exact Hd|].
    apply (Hsz 0%nat 1 8 0 7 1); reflexivity.
Defined.

Lemma slice_unit_strides_follow_rule_witness :
  exists s,
    slice_N_unit 1 (index_leaf [3; 8]) [2; 1] [matxDropDim; matxEnd] = Ok s
    /\ SliceOp_Size s 0 = Ok 7
    /\ exists ind,
         SliceOp_get s [4] = Ok ind
         /\ ind !! 0%nat = Some 2 /\ ind !! 1%nat = Some (idx_wrap (1 + 4)).
Proof.
  destruct (slice_unit_strides_follow_rule (index_leaf [3; 8]) [2; 1]
              [matxDropDim; matxEnd] [3; 8] eq_refl eq_refl eq_refl)
    as (s & Hc & Hsz & Hacc).
  - simpl. lia.
  - intros [|[|i]] n Hn; simpl in Hn; try discriminate; injection Hn as <-; reflexivity.
  - intros [|[|i]] n s e Hn Hs He Hk; simpl in Hn, Hs, He; try discriminate;
      injection Hn as <-; injection Hs as <-; injection He as <-;
      [now destruct Hk | vm_compute; discriminate].
  - exists s. split; [exact Hc|]. split.
    + change (SliceOp_Size s (Z.of_nat 0) = Ok (resolve_end 8 matxEnd - 1)).
      apply (Hsz 0%nat 1 8 1 matxEnd); reflexivity.
    + destruct (Hacc [4] eq_refl) as (ind & Hget & _ & Hdrop & Hkeep).
      exists ind. split; [exact Hget|]. split.
      * apply (Hdrop 0%nat 2); reflexivity.
      * apply (Hkeep 0%nat 1 4 1); reflexivity.
Defined.

Lemma slice_zero_first_stride_undefined_witness :
  SliceOp_ctor 2 (index_leaf [3; 8]) [0; 0] [matxEnd; matxEnd] [0; 1]
  = Undefined FloatToInt.
Proof.
  apply (slice_zero_first_stride_undefined 2 (index_leaf [3; 8]) [0; 0]
           [matxEnd; matxEnd] [0; 1] matxEnd); try reflexivity.
  - simpl. lia.
  - intros H. vm_compute in H. discriminate H.
  - intros _. exists 3. reflexivity.
Defined.

End SliceInstances.
